(** * The dense-matrix kernel of the cpp-java-python-engine example

    A shallow embedding of [engine/src/matrix.cpp] (the [Matrix] value type)
    and [engine/src/engine.cpp] (the C boundary over untyped handles),
    followed by the properties the specification states about them.

    Conventions of the embedding.
    - [size_t] is an [N] below [2^64]; every product and sum the source
      computes in [size_t] is written with its wrap-around ([size_mul],
      [size_add]).
    - [double] is the kernel's binary64 type [float]; [+] and [*] are the
      IEEE-754 operations, each rounded to nearest (a product and the sum it
      enters are rounded separately, as the source writes them). NaN is one
      value of [float]: payloads and signalling are not distinguished.
    - [std::vector<double>] is a [list float]. [operator[]] out of range is
      undefined behaviour, which the embedding makes an outcome of its own
      ([UB]) instead of picking a value for it.
    - A C++ exception is the outcome [Throw e].
    - [std::vector]'s sized constructor throws [std::length_error] when asked
      for more than [max_size()] elements. [max_size()] is fixed by the C++
      library and not by this repository, so it is a parameter here; all that
      is assumed of it is that so many doubles fit the 64-bit address space.
    - The free store. The functions are embedded twice. The first embedding
      takes storage for granted: a vector within [max_size] is built, [new]
      succeeds. It carries the properties that are not about allocation. The
      second ([..._alloc]) is the same source with the allocator's answers
      as parameters, so that a request can be refused with [std::bad_alloc];
      it carries the properties that are about failure at the boundary. The
      first is the second under an allocator that grants the request
      (lemmas [..._granted]). *)

From Stdlib Require Import NArith Floats Lia String.
From stdpp Require Import base option list.

Local Open Scope N_scope.

(** ** Outcomes of a C++ evaluation *)

Inductive exn : Type :=
| invalid_argument (what : string)
| out_of_range (what : string)
| length_error
| bad_alloc.

Inductive outcome (A : Type) : Type :=
| Ok (a : A)
| Throw (e : exn)
| UB.

Arguments Ok {A} a.
Arguments Throw {A} e.
Arguments UB {A}.

Definition bind {A B : Type} (m : outcome A) (k : A -> outcome B) : outcome B :=
  match m with
  | Ok a => k a
  | Throw e => Throw e
  | UB => UB
  end.

Notation "x <- m ;; k" := (bind m (fun x => k))
  (at level 100, m at next level, right associativity).

(** The names the specification gives to the failures of the value type. *)
Definition InvalidDimension : exn :=
  invalid_argument "Matrix dimensions must be positive".
Definition SizeMismatch : exn :=
  invalid_argument "Data size does not match matrix dimensions".
Definition IndexOutOfRange : exn :=
  out_of_range "Matrix index out of range".
Definition DimensionMismatch_add : exn :=
  invalid_argument "Matrix dimensions must match for addition".
Definition DimensionMismatch_mul : exn :=
  invalid_argument "Invalid matrix dimensions for multiplication".

Definition is_DimensionMismatch (e : exn) : Prop :=
  e = DimensionMismatch_add \/ e = DimensionMismatch_mul.

(** ** [size_t] arithmetic *)

Definition SIZE_MOD : N := 2 ^ 64.

Definition wrap (n : N) : N := n mod SIZE_MOD.
Definition size_mul (a b : N) : N := wrap (a * b).
Definition size_add (a b : N) : N := wrap (a + b).

(** ** [for (size_t i = 0; i < n; ++i) body]

    The loop state is threaded through the body; a throwing or undefined
    iteration ends the loop with that outcome. *)

Fixpoint for_from {S : Type} (count : nat) (i : N)
    (body : N -> S -> outcome S) (s : S) : outcome S :=
  match count with
  | O => Ok s
  | Datatypes.S count' => s' <- body i s ;; for_from count' (i + 1) body s'
  end.

Definition for_range {S : Type} (n : N) (body : N -> S -> outcome S) (s : S)
    : outcome S :=
  for_from (N.to_nat n) 0 body s.

(** ** [std::vector<double>] *)

Definition vec_size (v : list float) : N := N.of_nat (length v).

(** [v[i]] read. *)
Definition vec_get (v : list float) (i : N) : outcome float :=
  match v !! N.to_nat i with
  | Some x => Ok x
  | None => UB
  end.

(** [v[i]] as an lvalue: the slot referred to. *)
Definition vec_ref (v : list float) (i : N) : outcome N :=
  if i <? vec_size v then Ok i else UB.

(** ** [class Matrix] *)

Record Matrix : Type := mkMatrix {
  rows_ : N;
  cols_ : N;
  data_ : list float
}.

(** Assignment through a [double&] obtained from [data_]. *)
Definition assign (m : Matrix) (slot : N) (x : float) : Matrix :=
  mkMatrix (rows_ m) (cols_ m) (<[N.to_nat slot := x]> (data_ m)).

(** ** The free store's answers *)

Record allocator : Type := mkAllocator {
  vec_alloc : N -> bool;
  obj_alloc : bool
}.

(** ** Concrete inputs used below *)

Definition refuses_buffers : allocator := mkAllocator (fun _ => false) true.
Definition refuses_objects : allocator := mkAllocator (fun _ => true) false.
Definition grants_8GiB : allocator :=
  mkAllocator (fun n => n <=? 2 ^ 30) true.

(** [max_size()] of [std::vector<double>] in libstdc++ on an LP64 target:
    [PTRDIFF_MAX / sizeof(double)]. *)
Definition max_size_lp64 : N := 2 ^ 60 - 1.

(** The matrices of the specification's concrete scenario. *)
Definition mA : Matrix := mkMatrix 2 2 [1; 2; 3; 4]%float.
Definition mB : Matrix := mkMatrix 2 2 [5; 6; 7; 8]%float.

Definition m2x3 : Matrix := mkMatrix 2 3 [1; 2; 3; 4; 5; 6]%float.
Definition m3x2 : Matrix := mkMatrix 3 2 [1; 2; 3; 4; 5; 6]%float.

(** 1 x 1 matrices holding [-0.0] and a NaN. *)
Definition mNegZero : Matrix := mkMatrix 1 1 [(-0)%float].
Definition mNaN : Matrix := mkMatrix 1 1 [nan].

(** A 2^32 x 1 column and a 1 x 2^32 row of zeros: both satisfy the
    invariant, and the shape of their product has [rows * cols = 2^64]. *)
Definition mTall : Matrix :=
  mkMatrix (2 ^ 32) 1 (replicate (N.to_nat (2 ^ 32)) 0%float).
Definition mWide : Matrix :=
  mkMatrix 1 (2 ^ 32) (replicate (N.to_nat (2 ^ 32)) 0%float).

Section Engine.

(** [std::vector<double>::max_size()]. *)
Variable max_size : N.

(** [std::vector<double>(n, x)]. *)
Definition vec_fill (n : N) (x : float) : outcome (list float) :=
  if max_size <? n then Throw length_error
  else Ok (replicate (N.to_nat n) x).

(** [Matrix::Matrix(size_t rows, size_t cols)], matrix.cpp 7-12. The member
    initialisers run before the body, so [data_] is built first. *)
Definition Matrix_Matrix (rows cols : N) : outcome Matrix :=
  data <- vec_fill (size_mul rows cols) 0%float ;;
  if (rows =? 0) || (cols =? 0) then Throw InvalidDimension
  else Ok (mkMatrix rows cols data).

(** [Matrix::Matrix(size_t rows, size_t cols, const std::vector<double>&)],
    matrix.cpp 14-22. [data_] is a copy of the argument, which is a vector
    already and so within [max_size]. *)
Definition Matrix_Matrix_data (rows cols : N) (data : list float)
    : outcome Matrix :=
  if (rows =? 0) || (cols =? 0) then Throw InvalidDimension
  else if negb (vec_size data =? size_mul rows cols) then Throw SizeMismatch
  else Ok (mkMatrix rows cols data).

(** [double& Matrix::at(size_t, size_t)], matrix.cpp 24-29: the slot of
    [data_] the returned reference denotes. *)
Definition Matrix_at (this : Matrix) (row col : N) : outcome N :=
  if (rows_ this <=? row) || (cols_ this <=? col) then Throw IndexOutOfRange
  else vec_ref (data_ this) (size_add (size_mul row (cols_ this)) col).

(** [const double& Matrix::at(size_t, size_t) const], matrix.cpp 31-36,
    read at once. *)
Definition Matrix_at_const (this : Matrix) (row col : N) : outcome float :=
  if (rows_ this <=? row) || (cols_ this <=? col) then Throw IndexOutOfRange
  else vec_get (data_ this) (size_add (size_mul row (cols_ this)) col).

(** [m.at(row, col) = x]. *)
Definition Matrix_at_assign (m : Matrix) (row col : N) (x : float)
    : outcome Matrix :=
  slot <- Matrix_at m row col ;;
  Ok (assign m slot x).

(** [Matrix::operator+], matrix.cpp 38-48. *)
Definition Matrix_operator_add (this other : Matrix) : outcome Matrix :=
  if negb (rows_ this =? rows_ other) || negb (cols_ this =? cols_ other)
  then Throw DimensionMismatch_add
  else
    result <- Matrix_Matrix (rows_ this) (cols_ this) ;;
    for_range (vec_size (data_ this)) (fun i result =>
      a <- vec_get (data_ this) i ;;
      b <- vec_get (data_ other) i ;;
      slot <- vec_ref (data_ result) i ;;
      Ok (assign result slot (a + b)%float)) result.

(** The innermost loop of [Matrix::operator*], matrix.cpp 58-61. *)
Definition Matrix_operator_mul_sum (this other : Matrix) (i j : N)
    : outcome float :=
  for_range (cols_ this) (fun k sum =>
    a <- Matrix_at_const this i k ;;
    b <- Matrix_at_const other k j ;;
    Ok (sum + a * b)%float) 0%float.

(** [Matrix::operator*], matrix.cpp 50-66. *)
Definition Matrix_operator_mul (this other : Matrix) : outcome Matrix :=
  if negb (cols_ this =? rows_ other) then Throw DimensionMismatch_mul
  else
    result <- Matrix_Matrix (rows_ this) (cols_ other) ;;
    for_range (rows_ this) (fun i result =>
      for_range (cols_ other) (fun j result =>
        sum <- Matrix_operator_mul_sum this other i j ;;
        Matrix_at_assign result i j sum) result) result.

(** [Matrix::transpose], matrix.cpp 68-76. *)
Definition Matrix_transpose (this : Matrix) : outcome Matrix :=
  result <- Matrix_Matrix (cols_ this) (rows_ this) ;;
  for_range (rows_ this) (fun i result =>
    for_range (cols_ this) (fun j result =>
      x <- Matrix_at_const this i j ;;
      Matrix_at_assign result j i x) result) result.

(** ** The C boundary, engine.cpp

    A [void*] is an address; address 0 is [nullptr]. The free store is the
    list of the objects allocated so far: address [p > 0] denotes entry
    [p - 1], [None] once it has been deleted. Dereferencing an address
    that denotes no live [Matrix] is undefined behaviour. *)

Definition handle : Type := N.
Definition nullptr : handle := 0.

Abbreviation heap := (list (option Matrix)).

(** [new math_engine::Matrix(...)]. *)
Definition heap_new (h : heap) (m : Matrix) : heap * handle :=
  (h ++ [Some m], N.of_nat (Datatypes.S (length h))).

(** [*static_cast<math_engine::Matrix*>(p)]. *)
Definition heap_deref (h : heap) (p : handle) : outcome Matrix :=
  if p =? 0 then UB
  else match h !! N.to_nat (p - 1) with
       | Some (Some m) => Ok m
       | _ => UB
       end.

(** [try { body } catch (...) { handler }]. *)
Definition try_catch_all {A : Type} (body handler : outcome A) : outcome A :=
  match body with
  | Throw _ => handler
  | _ => body
  end.

(** engine.cpp 6-12. *)
Definition matrix_create (h : heap) (rows cols : N) : outcome (heap * handle) :=
  try_catch_all
    (m <- Matrix_Matrix rows cols ;; Ok (heap_new h m))
    (Ok (h, nullptr)).

(** engine.cpp 14-16; [delete] of a null pointer does nothing. *)
Definition matrix_destroy (h : heap) (matrix : handle) : outcome heap :=
  if matrix =? 0 then Ok h
  else
    _ <- heap_deref h matrix ;;
    Ok (<[N.to_nat (matrix - 1) := None]> h).

(** engine.cpp 18-21. [data] is the caller's array; [std::copy] reads
    [rows * cols] elements of it and writes as many into the buffer. *)
Definition matrix_set_data (h : heap) (matrix : handle) (data : list float)
    : outcome heap :=
  m <- heap_deref h matrix ;;
  let n := size_mul (rows_ m) (cols_ m) in
  if (vec_size data <? n) || (vec_size (data_ m) <? n) then UB
  else
    let buf := take (N.to_nat n) data ++ drop (N.to_nat n) (data_ m) in
    Ok (<[N.to_nat (matrix - 1) := Some (mkMatrix (rows_ m) (cols_ m) buf)]> h).

(** engine.cpp 23-26. [data] is the caller's buffer; the result is its
    contents after the copy. *)
Definition matrix_get_data (h : heap) (matrix : handle) (data : list float)
    : outcome (list float) :=
  m <- heap_deref h matrix ;;
  let n := size_mul (rows_ m) (cols_ m) in
  if (vec_size (data_ m) <? n) || (vec_size data <? n) then UB
  else Ok (take (N.to_nat n) (data_ m) ++ drop (N.to_nat n) data).

(** engine.cpp 28-37. *)
Definition matrix_multiply (h : heap) (a b : handle) : outcome (heap * handle) :=
  try_catch_all
    (ma <- heap_deref h a ;;
     mb <- heap_deref h b ;;
     result <- Matrix_operator_mul ma mb ;;
     Ok (heap_new h result))
    (Ok (h, nullptr)).

(** engine.cpp 39-48. *)
Definition matrix_add (h : heap) (a b : handle) : outcome (heap * handle) :=
  try_catch_all
    (ma <- heap_deref h a ;;
     mb <- heap_deref h b ;;
     result <- Matrix_operator_add ma mb ;;
     Ok (heap_new h result))
    (Ok (h, nullptr)).

(** engine.cpp 50-58. *)
Definition matrix_transpose (h : heap) (matrix : handle)
    : outcome (heap * handle) :=
  try_catch_all
    (m <- heap_deref h matrix ;;
     result <- Matrix_transpose m ;;
     Ok (heap_new h result))
    (Ok (h, nullptr)).

(** engine.cpp 60-68. *)
Definition matrix_rows (h : heap) (matrix : handle) : outcome N :=
  m <- heap_deref h matrix ;; Ok (rows_ m).

Definition matrix_cols (h : heap) (matrix : handle) : outcome N :=
  m <- heap_deref h matrix ;; Ok (cols_ m).

(** ** The invariant of the data model

    [Matrix_inv] is the invariant of the specification, with the product
    taken in the integers. [Matrix_valid] adds what being a [std::vector]
    gives: the buffer is no longer than [max_size]. *)

Definition Matrix_inv (m : Matrix) : Prop :=
  0 < rows_ m /\ 0 < cols_ m /\ vec_size (data_ m) = rows_ m * cols_ m.

Definition Matrix_valid (m : Matrix) : Prop :=
  Matrix_inv m /\ vec_size (data_ m) <= max_size.

(** What a matrix returned by a constructor satisfies in every case:
    positive dimensions and a buffer of [rows * cols] modulo 2^64 elements,
    no longer than [max_size]. *)
Definition Matrix_built (m : Matrix) : Prop :=
  rows_ m <> 0 /\ cols_ m <> 0
  /\ vec_size (data_ m) = size_mul (rows_ m) (cols_ m)
  /\ vec_size (data_ m) <= max_size.

(** The entry the specification writes [m[i][j]]: row-major position
    [i * cols + j] of the buffer. *)
Definition entry (m : Matrix) (i j : N) : option float :=
  data_ m !! N.to_nat (i * cols_ m + j).

(** The specification's [sum over k of A[i][k] * B[k][j]], added up from
    [0.0] in the order k = 0, 1, ..., n-1. Written from the words of the
    specification, to be compared with [Matrix_operator_mul_sum]. *)
Definition spec_term (a b : Matrix) (i j k : N) : option float :=
  match entry a i k, entry b k j with
  | Some x, Some y => Some (x * y)%float
  | _, _ => None
  end.

Definition spec_dot (a b : Matrix) (i j : N) : option float :=
  foldl (fun acc k =>
           match acc, spec_term a b i j (N.of_nat k) with
           | Some s, Some t => Some (s + t)%float
           | _, _ => None
           end)
        (Some 0%float) (seq 0 (N.to_nat (cols_ a))).

(** ** The same code, with the allocator's answers explicit

    An [allocator] (declared with [Matrix] above) is what the free store
    answers during a call:
    [vec_alloc n] says whether it supplies the buffer of a vector of [n]
    doubles, [obj_alloc] whether it supplies the [Matrix] object of a [new]
    expression. A refusal is [std::bad_alloc]; a vector of no elements asks
    for nothing. Each function is its source function again, line by line;
    only the construction of a vector and [new] differ from the embedding
    above. *)

(** [std::vector<double>(n, x)]. *)
Definition vec_fill_alloc (mem : allocator) (n : N) (x : float)
    : outcome (list float) :=
  if max_size <? n then Throw length_error
  else if (n =? 0) || vec_alloc mem n then Ok (replicate (N.to_nat n) x)
  else Throw bad_alloc.

(** The buffer of [n] doubles cannot be had. *)
Definition vec_refused (mem : allocator) (n : N) : Prop :=
  max_size < n \/ (n <> 0 /\ vec_alloc mem n = false).

(** matrix.cpp 7-12. *)
Definition Matrix_Matrix_alloc (mem : allocator) (rows cols : N)
    : outcome Matrix :=
  data <- vec_fill_alloc mem (size_mul rows cols) 0%float ;;
  if (rows =? 0) || (cols =? 0) then Throw InvalidDimension
  else Ok (mkMatrix rows cols data).

(** matrix.cpp 38-48. *)
Definition Matrix_operator_add_alloc (mem : allocator) (this other : Matrix)
    : outcome Matrix :=
  if negb (rows_ this =? rows_ other) || negb (cols_ this =? cols_ other)
  then Throw DimensionMismatch_add
  else
    result <- Matrix_Matrix_alloc mem (rows_ this) (cols_ this) ;;
    for_range (vec_size (data_ this)) (fun i result =>
      a <- vec_get (data_ this) i ;;
      b <- vec_get (data_ other) i ;;
      slot <- vec_ref (data_ result) i ;;
      Ok (assign result slot (a + b)%float)) result.

(** matrix.cpp 50-66. *)
Definition Matrix_operator_mul_alloc (mem : allocator) (this other : Matrix)
    : outcome Matrix :=
  if negb (cols_ this =? rows_ other) then Throw DimensionMismatch_mul
  else
    result <- Matrix_Matrix_alloc mem (rows_ this) (cols_ other) ;;
    for_range (rows_ this) (fun i result =>
      for_range (cols_ other) (fun j result =>
        sum <- Matrix_operator_mul_sum this other i j ;;
        Matrix_at_assign result i j sum) result) result.

(** matrix.cpp 68-76. *)
Definition Matrix_transpose_alloc (mem : allocator) (this : Matrix)
    : outcome Matrix :=
  result <- Matrix_Matrix_alloc mem (cols_ this) (rows_ this) ;;
  for_range (rows_ this) (fun i result =>
    for_range (cols_ this) (fun j result =>
      x <- Matrix_at_const this i j ;;
      Matrix_at_assign result j i x) result) result.

(** [new math_engine::Matrix(std::move(result))]: the object is asked of
    the free store; moving the result into it asks for nothing. *)
Definition heap_new_alloc (mem : allocator) (h : heap) (m : Matrix)
    : outcome (heap * handle) :=
  if obj_alloc mem then Ok (heap_new h m) else Throw bad_alloc.

(** engine.cpp 6-12. [new] obtains the object before the constructor
    runs. *)
Definition matrix_create_alloc (mem : allocator) (h : heap) (rows cols : N)
    : outcome (heap * handle) :=
  try_catch_all
    (if obj_alloc mem
     then m <- Matrix_Matrix_alloc mem rows cols ;; Ok (heap_new h m)
     else Throw bad_alloc)
    (Ok (h, nullptr)).

(** engine.cpp 28-37. *)
Definition matrix_multiply_alloc (mem : allocator) (h : heap) (a b : handle)
    : outcome (heap * handle) :=
  try_catch_all
    (ma <- heap_deref h a ;;
     mb <- heap_deref h b ;;
     result <- Matrix_operator_mul_alloc mem ma mb ;;
     heap_new_alloc mem h result)
    (Ok (h, nullptr)).



(** ** Basic facts: outcomes, [size_t], vectors, loops *)

Lemma Ok_inj {A : Type} (a b : A) : Ok a = Ok b -> a = b.
Proof. intros H. now inversion H. Qed.

Lemma bind_Ok_inv {A B : Type} (m : outcome A) (k : A -> outcome B) (b : B) :
  (x <- m ;; k x) = Ok b -> exists a, m = Ok a /\ k a = Ok b.
Proof. destruct m as [a| |]; simpl; intros H; try discriminate; eauto. Qed.

Lemma wrap_small (n : N) : n < 2 ^ 64 -> wrap n = n.
Proof. intros H. unfold wrap, SIZE_MOD. apply N.mod_small. exact H. Qed.


Lemma rowmajor_lt (r c i j : N) : i < r -> j < c -> i * c + j < r * c.
Proof.
  intros Hi Hj.
  assert (H : (i + 1) * c <= r * c) by (apply N.mul_le_mono_r; lia).
  lia.
Qed.

Lemma rowmajor_inj (c i j i' j' : N) :
  j < c -> j' < c -> i * c + j = i' * c + j' -> i = i' /\ j = j'.
Proof.
  intros Hj Hj' H.
  assert (Hi : i = i').
  { destruct (N.lt_trichotomy i i') as [Hlt|[Heq|Hgt]]; [exfalso | exact Heq | exfalso].
    - assert ((i + 1) * c <= i' * c) by (apply N.mul_le_mono_r; lia). lia.
    - assert ((i' + 1) * c <= i * c) by (apply N.mul_le_mono_r; lia). lia. }
  subst i'. split; [reflexivity | lia].
Qed.

Lemma vec_get_Some (v : list float) (i : N) (x : float) :
  v !! N.to_nat i = Some x -> vec_get v i = Ok x.
Proof. intros H. unfold vec_get. rewrite H. reflexivity. Qed.

Lemma vec_get_lt (v : list float) (i : N) :
  i < vec_size v -> exists x, v !! N.to_nat i = Some x /\ vec_get v i = Ok x.
Proof.
  intros H. unfold vec_size in H.
  destruct (lookup_lt_is_Some_2 v (N.to_nat i)) as [x Hx]; [lia|].
  exists x. split; [exact Hx | apply vec_get_Some, Hx].
Qed.

Lemma vec_get_ge (v : list float) (i : N) : vec_size v <= i -> vec_get v i = UB.
Proof.
  intros H. unfold vec_get, vec_size in *.
  rewrite lookup_ge_None_2; [reflexivity | lia].
Qed.

Lemma vec_ref_lt (v : list float) (i : N) : i < vec_size v -> vec_ref v i = Ok i.
Proof.
  intros H. unfold vec_ref.
  destruct (N.ltb_spec i (vec_size v)); [reflexivity | lia].
Qed.

Lemma vec_ref_ge (v : list float) (i : N) : vec_size v <= i -> vec_ref v i = UB.
Proof.
  intros H. unfold vec_ref.
  destruct (N.ltb_spec i (vec_size v)); [lia | reflexivity].
Qed.

(** The loop rule: an invariant that every iteration re-establishes holds
    when the loop ends, and the loop does end normally. *)
Lemma for_from_inv {S : Type} (I : N -> S -> Prop) (body : N -> S -> outcome S) :
  forall (count : nat) (i : N) (s : S),
    I i s ->
    (forall k t, i <= k < i + N.of_nat count -> I k t ->
       exists t', body k t = Ok t' /\ I (k + 1) t') ->
    exists s', for_from count i body s = Ok s' /\ I (i + N.of_nat count) s'.
Proof.
  induction count as [|count IH]; intros i s Hi Hstep.
  - exists s. split; [reflexivity|]. now replace (i + N.of_nat 0) with i by lia.
  - destruct (Hstep i s ltac:(lia) Hi) as (t & Hbody & Ht).
    destruct (IH (i + 1) t Ht) as (s' & Hloop & Hs').
    + intros k u Hk. apply Hstep. lia.
    + exists s'. split.
      * simpl. rewrite Hbody. exact Hloop.
      * now replace (i + N.of_nat (Datatypes.S count)) with (i + 1 + N.of_nat count) by lia.
Qed.

Lemma for_range_inv {S : Type} (I : N -> S -> Prop) (n : N)
    (body : N -> S -> outcome S) (s : S) :
  I 0 s ->
  (forall k t, k < n -> I k t -> exists t', body k t = Ok t' /\ I (k + 1) t') ->
  exists s', for_range n body s = Ok s' /\ I n s'.
Proof.
  intros H0 Hstep.
  destruct (for_from_inv I body (N.to_nat n) 0 s H0) as (s' & Hloop & Hs').
  - intros k t Hk. apply Hstep. lia.
  - exists s'. split; [exact Hloop|].
    now replace (0 + N.of_nat (N.to_nat n)) with n in Hs' by lia.
Qed.

(** A loop whose first iteration is undefined is undefined. *)
Lemma for_range_UB {S : Type} (n : N) (body : N -> S -> outcome S) (s : S) :
  0 < n -> body 0 s = UB -> for_range n body s = UB.
Proof.
  intros Hn Hbad. unfold for_range.
  destruct (N.to_nat n) as [|count] eqn:E; [lia|].
  simpl. now rewrite Hbad.
Qed.

(** A loop whose iterations never throw never throws. *)
Lemma for_from_no_throw {S : Type} (P : S -> Prop) (body : N -> S -> outcome S) :
  forall (count : nat) (i : N) (s : S),
    P s ->
    (forall k t, i <= k < i + N.of_nat count -> P t ->
       match body k t with Ok t' => P t' | Throw _ => False | UB => True end) ->
    match for_from count i body s with
    | Ok s' => P s' | Throw _ => False | UB => True
    end.
Proof.
  induction count as [|count IH]; intros i s Hs Hstep; [exact Hs|].
  simpl. specialize (Hstep i s ltac:(lia) Hs) as Hb.
  destruct (body i s) as [t| |]; simpl; [|contradiction|exact I].
  apply IH; [exact Hb|]. intros k u Hk. apply Hstep. lia.
Qed.

Lemma for_range_no_throw {S : Type} (P : S -> Prop) (n : N)
    (body : N -> S -> outcome S) (s : S) :
  P s ->
  (forall k t, k < n -> P t ->
     match body k t with Ok t' => P t' | Throw _ => False | UB => True end) ->
  match for_range n body s with
  | Ok s' => P s' | Throw _ => False | UB => True
  end.
Proof.
  intros Hs Hstep. apply for_from_no_throw; [exact Hs|].
  intros k t Hk. apply Hstep. lia.
Qed.

Lemma bounds_check_in (m : Matrix) (row col : N) :
  row < rows_ m -> col < cols_ m ->
  (rows_ m <=? row) || (cols_ m <=? col) = false.
Proof.
  intros Hr Hc.
  destruct (N.leb_spec (rows_ m) row); [lia|].
  destruct (N.leb_spec (cols_ m) col); [lia|]. reflexivity.
Qed.

Lemma bounds_check_out (m : Matrix) (row col : N) :
  rows_ m <= row \/ cols_ m <= col ->
  (rows_ m <=? row) || (cols_ m <=? col) = true.
Proof.
  intros H.
  destruct (N.leb_spec (rows_ m) row); [reflexivity|].
  destruct (N.leb_spec (cols_ m) col); [reflexivity|]. lia.
Qed.

Lemma Matrix_at_out (m : Matrix) (row col : N) :
  rows_ m <= row \/ cols_ m <= col -> Matrix_at m row col = Throw IndexOutOfRange.
Proof. intros H. unfold Matrix_at. now rewrite bounds_check_out. Qed.

Lemma Matrix_at_const_out (m : Matrix) (row col : N) :
  rows_ m <= row \/ cols_ m <= col ->
  Matrix_at_const m row col = Throw IndexOutOfRange.
Proof. intros H. unfold Matrix_at_const. now rewrite bounds_check_out. Qed.

Lemma float_zero_neq_negzero : 0%float <> (-0)%float.
Proof.
  intros H. apply (f_equal classify) in H. vm_compute in H. discriminate.
Qed.

Lemma float_add_zero_r (x : float) : x <> (-0)%float -> (x + 0)%float = x.
Proof.
  intros Hx. apply Prim2SF_inj. rewrite add_spec.
  change (Prim2SF 0) with (S754_zero false).
  destruct (Prim2SF x) as [s| s | |s m e] eqn:E; try reflexivity.
  destruct s; [|reflexivity].
  exfalso. apply Hx. rewrite <- (SF2Prim_Prim2SF x), E. reflexivity.
Qed.

Lemma float_eqb_refl (x : float) : is_nan x = false -> (x =? x)%float = true.
Proof. unfold is_nan. intros H. now apply negb_false_iff in H. Qed.

Lemma float_add_zero_r_eqb (x : float) :
  is_nan x = false -> (x + 0 =? x)%float = true.
Proof.
  intros Hx.
  destruct (Prim2SF x) as [[|]| s | |s m e] eqn:E.
  1: { assert (x = (-0)%float) as ->; [|reflexivity].
       rewrite <- (SF2Prim_Prim2SF x), E. reflexivity. }
  all: rewrite float_add_zero_r;
    [ apply float_eqb_refl, Hx | intros ->; vm_compute in E; discriminate ].
Qed.


Lemma heap_deref_live (h : heap) (p : handle) (m : Matrix) :
  heap_deref h p = Ok m ->
  p <> 0 /\ h !! N.to_nat (p - 1) = Some (Some m).
Proof.
  unfold heap_deref. destruct (N.eqb_spec p 0); [discriminate|].
  destruct (h !! N.to_nat (p - 1)) as [[m'|]|]; try discriminate.
  intros [= ->]. split; [assumption | reflexivity].
Qed.

(** Allocation leaves every live object as it was, and the address it
    returns denoted no object before. *)
Lemma heap_new_frame (h : heap) (r : Matrix) :
  (forall q m, heap_deref h q = Ok m -> heap_deref (fst (heap_new h r)) q = Ok m)
  /\ heap_deref h (snd (heap_new h r)) = UB
  /\ heap_deref (fst (heap_new h r)) (snd (heap_new h r)) = Ok r.
Proof.
  unfold heap_new. simpl. split; [|split].
  - intros q m Hq. destruct (heap_deref_live h q m Hq) as [Hq0 Hl].
    unfold heap_deref. destruct (N.eqb_spec q 0); [contradiction|].
    rewrite lookup_app_l; [now rewrite Hl|]. now apply lookup_lt_Some in Hl.
  - unfold heap_deref.
    destruct (N.eqb_spec (N.of_nat (Datatypes.S (length h))) 0); [reflexivity|].
    rewrite lookup_ge_None_2; [reflexivity | lia].
  - unfold heap_deref.
    destruct (N.eqb_spec (N.of_nat (Datatypes.S (length h))) 0); [lia|].
    replace (N.to_nat (N.of_nat (Datatypes.S (length h)) - 1)) with (length h + 0)%nat by lia.
    rewrite lookup_app_r; [|lia].
    replace (length h + 0 - length h)%nat with 0%nat by lia. reflexivity.
Qed.



(** A loop with an iteration that cannot end normally does not end
    normally. *)
Lemma for_from_not_Ok {S : Type} (body : N -> S -> outcome S) (k : N) :
  (forall t t', body k t <> Ok t') ->
  forall (count : nat) (i : N) (s s' : S),
    i <= k < i + N.of_nat count -> for_from count i body s <> Ok s'.
Proof.
  intros Hbad. induction count as [|count IH]; intros i s s' Hk; [lia|].
  simpl. destruct (body i s) as [t| |] eqn:E; simpl; [|discriminate..].
  destruct (N.eq_dec i k) as [->|Hne]; [now destruct (Hbad s t)|].
  apply IH. lia.
Qed.

Lemma for_range_not_Ok {S : Type} (n k : N) (body : N -> S -> outcome S) (s s' : S) :
  k < n -> (forall t t', body k t <> Ok t') -> for_range n body s <> Ok s'.
Proof.
  intros Hk Hbad. apply (for_from_not_Ok body k Hbad). lia.
Qed.

Lemma float_add_comm (x y : float) : (x + y)%float = (y + x)%float.
Proof.
  apply Prim2SF_inj. rewrite !add_spec. unfold SF64add, SFadd.
  destruct (Prim2SF x) as [[|]|[|]| |sx mx ex], (Prim2SF y) as [[|]|[|]| |sy my ey];
    try reflexivity.
  rewrite (Z.min_comm ey ex). rewrite Z.add_comm. reflexivity.
Qed.

Lemma float_mul_comm (x y : float) : (x * y)%float = (y * x)%float.
Proof.
  apply Prim2SF_inj. rewrite !mul_spec. unfold SF64mul, SFmul.
  destruct (Prim2SF x) as [sx|sx| |sx mx ex], (Prim2SF y) as [sy|sy| |sy my ey];
    try reflexivity; try (now rewrite xorb_comm).
  now rewrite xorb_comm, Pos.mul_comm, Z.add_comm.
Qed.

(** Overwriting or deleting the object at a live address: that address
    changes, every other address denotes what it did. *)
Lemma heap_deref_insert_eq (h : heap) (p : handle) (m m' : Matrix) :
  heap_deref h p = Ok m ->
  heap_deref (<[N.to_nat (p - 1) := Some m']> h) p = Ok m'.
Proof.
  intros H. destruct (heap_deref_live h p m H) as [Hp Hl].
  unfold heap_deref. destruct (N.eqb_spec p 0); [contradiction|].
  rewrite list_lookup_insert_eq; [reflexivity|]. now apply lookup_lt_Some in Hl.
Qed.

Lemma heap_deref_insert_None (h : heap) (p : handle) (m : Matrix) :
  heap_deref h p = Ok m ->
  heap_deref (<[N.to_nat (p - 1) := None]> h) p = UB.
Proof.
  intros H. destruct (heap_deref_live h p m H) as [Hp Hl].
  unfold heap_deref. destruct (N.eqb_spec p 0); [contradiction|].
  rewrite list_lookup_insert_eq; [reflexivity|]. now apply lookup_lt_Some in Hl.
Qed.

Lemma heap_deref_insert_ne (h : heap) (p q : handle) (v : option Matrix) :
  p <> 0 -> q <> p ->
  heap_deref (<[N.to_nat (p - 1) := v]> h) q = heap_deref h q.
Proof.
  intros Hp Hq. unfold heap_deref. destruct (N.eqb_spec q 0); [reflexivity|].
  rewrite list_lookup_insert_ne; [reflexivity | lia].
Qed.

Lemma foldl_ext_in {A B : Type} (f g : A -> B -> A) (l : list B) :
  (forall x, x ∈ l -> forall a, f a x = g a x) ->
  forall a, foldl f a l = foldl g a l.
Proof.
  induction l as [|x l IH]; intros H a; [reflexivity|]. simpl.
  rewrite (H x) by (left). apply IH.
  intros y Hy. apply H. now right.
Qed.

Lemma heap_deref_no_throw (h : heap) (p : handle) (e : exn) :
  heap_deref h p <> Throw e.
Proof.
  unfold heap_deref. destruct (p =? 0); [discriminate|].
  destruct (h !! N.to_nat (p - 1)) as [[m|]|]; discriminate.
Qed.

Lemma heap_deref_new (h : heap) (r : Matrix) :
  heap_deref (h ++ [Some r]) (N.of_nat (Datatypes.S (length h))) = Ok r
  /\ heap_deref h (N.of_nat (Datatypes.S (length h))) = UB
  /\ N.of_nat (Datatypes.S (length h)) <> nullptr
  /\ (forall q m, heap_deref h q = Ok m -> heap_deref (h ++ [Some r]) q = Ok m).
Proof.
  destruct (heap_new_frame h r) as (H1 & H2 & H3). unfold heap_new in *.
  simpl in *. repeat split; try assumption. unfold nullptr. lia.
Qed.

(** ** Facts that depend on [max_size]

    So many doubles as [max_size] fit the 64-bit address space. *)

Hypothesis max_size_addressable : max_size < 2 ^ 61.

Lemma max_size_lt_SIZE : max_size < 2 ^ 64.
Proof. eapply N.lt_trans; [exact max_size_addressable | reflexivity]. Qed.

Lemma vec_fill_Ok (n : N) (x : float) :
  n <= max_size -> vec_fill n x = Ok (replicate (N.to_nat n) x).
Proof.
  intros H. unfold vec_fill.
  destruct (N.ltb_spec max_size n) as [Hlt|_]; [lia | reflexivity].
Qed.

Lemma vec_fill_Throw (n : N) (x : float) :
  max_size < n -> vec_fill n x = Throw length_error.
Proof.
  intros H. unfold vec_fill.
  destruct (N.ltb_spec max_size n) as [_|Hle]; [reflexivity | lia].
Qed.

(** ** Construction and element access on valid matrices *)

Lemma Matrix_Matrix_Ok (rows cols : N) :
  0 < rows -> 0 < cols -> rows * cols <= max_size ->
  Matrix_Matrix rows cols
  = Ok (mkMatrix rows cols (replicate (N.to_nat (rows * cols)) 0%float)).
Proof.
  intros Hr Hc Hsz. unfold Matrix_Matrix, size_mul.
  pose proof max_size_lt_SIZE as Hm.
  rewrite wrap_small by lia. rewrite vec_fill_Ok by exact Hsz. simpl.
  destruct (N.eqb_spec rows 0); [lia|]. destruct (N.eqb_spec cols 0); [lia|].
  reflexivity.
Qed.

Lemma Matrix_Matrix_valid (rows cols : N) :
  0 < rows -> 0 < cols -> rows * cols <= max_size ->
  Matrix_valid (mkMatrix rows cols (replicate (N.to_nat (rows * cols)) 0%float)).
Proof.
  intros Hr Hc Hsz. unfold Matrix_valid, Matrix_inv, vec_size. simpl.
  rewrite length_replicate. lia.
Qed.

Lemma Matrix_valid_index (m : Matrix) (row col : N) :
  Matrix_valid m -> row < rows_ m -> col < cols_ m ->
  size_add (size_mul row (cols_ m)) col = row * cols_ m + col
  /\ row * cols_ m + col < vec_size (data_ m).
Proof.
  intros [(Hr & Hc & Hlen) Hmax] Hrow Hcol.
  pose proof max_size_lt_SIZE as Hm.
  pose proof (rowmajor_lt _ _ _ _ Hrow Hcol) as Hlt.
  assert (Hle : row * cols_ m <= row * cols_ m + col) by lia.
  unfold size_add, size_mul.
  rewrite (wrap_small (row * cols_ m)) by lia.
  rewrite wrap_small by lia. split; [reflexivity | lia].
Qed.

Lemma Matrix_at_in (m : Matrix) (row col : N) :
  Matrix_valid m -> row < rows_ m -> col < cols_ m ->
  Matrix_at m row col = Ok (row * cols_ m + col).
Proof.
  intros Hv Hr Hc. unfold Matrix_at. rewrite bounds_check_in by assumption.
  destruct (Matrix_valid_index m row col Hv Hr Hc) as [-> Hlt].
  apply vec_ref_lt, Hlt.
Qed.

Lemma Matrix_at_const_entry (m : Matrix) (row col : N) :
  Matrix_valid m -> row < rows_ m -> col < cols_ m ->
  exists x, entry m row col = Some x /\ Matrix_at_const m row col = Ok x.
Proof.
  intros Hv Hr Hc. unfold Matrix_at_const, entry.
  rewrite bounds_check_in by assumption.
  destruct (Matrix_valid_index m row col Hv Hr Hc) as [-> Hlt].
  apply vec_get_lt, Hlt.
Qed.

Lemma Matrix_at_const_Some (m : Matrix) (row col : N) (x : float) :
  Matrix_valid m -> row < rows_ m -> col < cols_ m ->
  entry m row col = Some x -> Matrix_at_const m row col = Ok x.
Proof.
  intros Hv Hr Hc Hx.
  destruct (Matrix_at_const_entry m row col Hv Hr Hc) as (y & Hy & ->).
  congruence.
Qed.

(** [m.at(row, col) = x] on a valid matrix: the matrix keeps its shape, the
    entry written reads back, every other entry is untouched. *)
Lemma Matrix_at_assign_in (m : Matrix) (row col : N) (x : float) :
  Matrix_valid m -> row < rows_ m -> col < cols_ m ->
  exists m',
    Matrix_at_assign m row col x = Ok m'
    /\ Matrix_valid m' /\ rows_ m' = rows_ m /\ cols_ m' = cols_ m
    /\ entry m' row col = Some x
    /\ (forall row' col', col' < cols_ m -> (row', col') <> (row, col) ->
          entry m' row' col' = entry m row' col').
Proof.
  intros Hv Hr Hc.
  destruct (Matrix_valid_index m row col Hv Hr Hc) as [_ Hlt].
  exists (assign m (row * cols_ m + col) x).
  unfold Matrix_at_assign. rewrite Matrix_at_in by assumption. simpl.
  split; [reflexivity|].
  destruct Hv as [(H1 & H2 & H3) H4].
  unfold Matrix_valid, Matrix_inv, entry, assign, vec_size in *. simpl.
  rewrite length_insert.
  repeat split; try assumption.
  - apply list_lookup_insert_eq. lia.
  - intros row' col' Hc' Hne. apply list_lookup_insert_ne.
    intros Heq. apply Hne.
    assert (row * cols_ m + col = row' * cols_ m + col') as E by lia.
    destruct (rowmajor_inj _ _ _ _ _ Hc Hc' E). congruence.
Qed.

(** ** The loops of the three operations *)

(** Two nested loops that store [val i j] at position [(pr i j, pc i j)] of
    the result, as [operator*] (position [(i, j)]) and [transpose]
    (position [(j, i)]) do. *)
Lemma fill_loops (n1 n2 : N) (val : N -> N -> outcome float)
    (g : N -> N -> float) (pr pc : N -> N -> N) (r0 : Matrix) :
  Matrix_valid r0 ->
  (forall i j, i < n1 -> j < n2 -> val i j = Ok (g i j)) ->
  (forall i j, i < n1 -> j < n2 -> pr i j < rows_ r0 /\ pc i j < cols_ r0) ->
  (forall i j i' j', i < n1 -> j < n2 -> i' < n1 -> j' < n2 ->
     (pr i j, pc i j) = (pr i' j', pc i' j') -> i = i' /\ j = j') ->
  exists r,
    for_range n1 (fun i result =>
      for_range n2 (fun j result =>
        x <- val i j ;; Matrix_at_assign result (pr i j) (pc i j) x) result) r0
    = Ok r
    /\ Matrix_valid r /\ rows_ r = rows_ r0 /\ cols_ r = cols_ r0
    /\ (forall i j, i < n1 -> j < n2 ->
          entry r (pr i j) (pc i j) = Some (g i j)).
Proof.
  intros Hv0 Hval Hpos Hinj.
  set (W := fun (i j : N) (r : Matrix) =>
    Matrix_valid r /\ rows_ r = rows_ r0 /\ cols_ r = cols_ r0
    /\ (forall i' j', i' < n1 -> j' < n2 -> i' < i \/ (i' = i /\ j' < j) ->
          entry r (pr i' j') (pc i' j') = Some (g i' j'))).
  destruct (for_range_inv (fun i r => W i 0 r) n1
    (fun i result =>
      for_range n2 (fun j result =>
        x <- val i j ;; Matrix_at_assign result (pr i j) (pc i j) x) result) r0)
    as (r & Hloop & Hr & Hrows & Hcols & Hent).
  - split; [exact Hv0|]. split; [reflexivity|]. split; [reflexivity|].
    intros i' j' _ _ [H|[_ H]]; lia.
  - intros i t Hi Ht.
    destruct (for_range_inv (fun j r => W i j r) n2
      (fun j result =>
        x <- val i j ;; Matrix_at_assign result (pr i j) (pc i j) x) t Ht)
      as (t' & Hin & Ht' & Hrows' & Hcols' & Hent').
    + intros j u Hj (Hu & Hur & Huc & Hue).
      rewrite (Hval i j Hi Hj). simpl.
      destruct (Hpos i j Hi Hj) as [Hp1 Hp2].
      destruct (Matrix_at_assign_in u (pr i j) (pc i j) (g i j) Hu)
        as (u' & Hasg & Hu' & Hur' & Huc' & Hnew & Hold); [lia | lia |].
      exists u'. split; [exact Hasg|].
      split; [exact Hu'|]. split; [congruence|]. split; [congruence|].
      intros i' j' Hi' Hj' Hcase.
      destruct (N.eq_dec i' i) as [->|Hne];
        [destruct (N.eq_dec j' j) as [->|Hne']|]; [exact Hnew | |].
      * rewrite Hold.
        -- apply Hue; [assumption | assumption | lia].
        -- destruct (Hpos i j' Hi Hj'). lia.
        -- intros E. destruct (Hinj i j' i j Hi Hj' Hi Hj E). contradiction.
      * rewrite Hold.
        -- apply Hue; [assumption | assumption | lia].
        -- destruct (Hpos i' j' Hi' Hj'). lia.
        -- intros E. destruct (Hinj i' j' i j Hi' Hj' Hi Hj E). contradiction.
    + exists t'. split; [exact Hin|].
      split; [exact Ht'|]. split; [exact Hrows'|]. split; [exact Hcols'|].
      intros i' j' Hi' Hj' Hcase. apply Hent'; [assumption | assumption | lia].
  - exists r. split; [exact Hloop|].
    split; [exact Hr|]. split; [exact Hrows|]. split; [exact Hcols|].
    intros i j Hi Hj. apply Hent; [assumption | assumption | lia].
Qed.

(** The innermost loop of [operator*] computes the specification's sum. *)
Lemma mul_sum_from (a b : Matrix) (i j : N) :
  Matrix_valid a -> Matrix_valid b -> cols_ a = rows_ b ->
  i < rows_ a -> j < cols_ b ->
  forall (count : nat) (k : N) (s : float),
    k + N.of_nat count <= cols_ a ->
    exists x,
      foldl (fun acc k =>
               match acc, spec_term a b i j (N.of_nat k) with
               | Some s, Some t => Some (s + t)%float
               | _, _ => None
               end) (Some s) (seq (N.to_nat k) count) = Some x
      /\ for_from count k (fun k sum =>
            x <- Matrix_at_const a i k ;;
            y <- Matrix_at_const b k j ;;
            Ok (sum + x * y)%float) s = Ok x.
Proof.
  intros Ha Hb Hab Hi Hj.
  induction count as [|count IH]; intros k s Hk.
  - exists s. split; reflexivity.
  - destruct (Matrix_at_const_entry a i k Ha Hi) as (x & Hx & Hxa); [lia|].
    destruct (Matrix_at_const_entry b k j Hb) as (y & Hy & Hyb); [lia | exact Hj |].
    destruct (IH (k + 1) (s + x * y)%float) as (z & Hz1 & Hz2); [lia|].
    exists z. split.
    + simpl. unfold spec_term at 2. rewrite N2Nat.id, Hx, Hy.
      replace (Datatypes.S (N.to_nat k)) with (N.to_nat (k + 1)) by lia.
      exact Hz1.
    + simpl. rewrite Hxa, Hyb. simpl. exact Hz2.
Qed.

Lemma mul_sum_refines (a b : Matrix) (i j : N) :
  Matrix_valid a -> Matrix_valid b -> cols_ a = rows_ b ->
  i < rows_ a -> j < cols_ b ->
  exists x, spec_dot a b i j = Some x /\ Matrix_operator_mul_sum a b i j = Ok x.
Proof.
  intros Ha Hb Hab Hi Hj.
  destruct (mul_sum_from a b i j Ha Hb Hab Hi Hj (N.to_nat (cols_ a)) 0 0%float)
    as (x & H1 & H2); [lia|].
  exists x. split; [exact H1 | exact H2].
Qed.

(** ** The three operations on valid matrices *)

Lemma Matrix_transpose_valid (m : Matrix) :
  Matrix_valid m ->
  exists t,
    Matrix_transpose m = Ok t
    /\ Matrix_valid t /\ rows_ t = cols_ m /\ cols_ t = rows_ m
    /\ (forall i j, i < rows_ m -> j < cols_ m -> entry t j i = entry m i j).
Proof.
  intros Hv. pose proof Hv as [(Hr & Hc & Hlen) Hmax].
  assert (Hsz : cols_ m * rows_ m <= max_size) by lia.
  unfold Matrix_transpose. rewrite (Matrix_Matrix_Ok _ _ Hc Hr Hsz). simpl.
  destruct (fill_loops (rows_ m) (cols_ m) (fun i j => Matrix_at_const m i j)
              (fun i j => default 0%float (entry m i j))
              (fun i j => j) (fun i j => i)
              (mkMatrix (cols_ m) (rows_ m)
                 (replicate (N.to_nat (cols_ m * rows_ m)) 0%float)))
    as (t & Hloop & Ht & Hrows & Hcols & Hent).
  - apply Matrix_Matrix_valid; assumption.
  - intros i j Hi Hj.
    destruct (Matrix_at_const_entry m i j Hv Hi Hj) as (x & -> & ->). reflexivity.
  - intros i j Hi Hj. simpl. split; assumption.
  - intros i j i' j' _ _ _ _ E. inversion E. split; reflexivity.
  - exists t. split; [exact Hloop|].
    split; [exact Ht|]. split; [exact Hrows|]. split; [exact Hcols|].
    intros i j Hi Hj. rewrite (Hent i j Hi Hj).
    destruct (Matrix_at_const_entry m i j Hv Hi Hj) as (x & -> & _). reflexivity.
Qed.

Lemma Matrix_operator_mul_valid (a b : Matrix) :
  Matrix_valid a -> Matrix_valid b -> cols_ a = rows_ b ->
  rows_ a * cols_ b <= max_size ->
  exists r,
    Matrix_operator_mul a b = Ok r
    /\ Matrix_valid r /\ rows_ r = rows_ a /\ cols_ r = cols_ b
    /\ (forall i j, i < rows_ a -> j < cols_ b ->
          entry r i j = spec_dot a b i j /\ is_Some (entry r i j)).
Proof.
  intros Ha Hb Hab Hsz.
  pose proof Ha as [(Har & Hac & _) _]. pose proof Hb as [(Hbr & Hbc & _) _].
  unfold Matrix_operator_mul.
  destruct (N.eqb_spec (cols_ a) (rows_ b)) as [_|Hne]; [simpl | contradiction].
  rewrite (Matrix_Matrix_Ok _ _ Har Hbc Hsz). simpl.
  destruct (fill_loops (rows_ a) (cols_ b) (Matrix_operator_mul_sum a b)
              (fun i j => default 0%float (spec_dot a b i j))
              (fun i j => i) (fun i j => j)
              (mkMatrix (rows_ a) (cols_ b)
                 (replicate (N.to_nat (rows_ a * cols_ b)) 0%float)))
    as (r & Hloop & Hr & Hrows & Hcols & Hent).
  - apply Matrix_Matrix_valid; assumption.
  - intros i j Hi Hj.
    destruct (mul_sum_refines a b i j Ha Hb Hab Hi Hj) as (x & -> & ->). reflexivity.
  - intros i j Hi Hj. simpl. split; assumption.
  - intros i j i' j' _ _ _ _ E. inversion E. split; reflexivity.
  - exists r. split; [exact Hloop|].
    split; [exact Hr|]. split; [exact Hrows|]. split; [exact Hcols|].
    intros i j Hi Hj. rewrite (Hent i j Hi Hj).
    destruct (mul_sum_refines a b i j Ha Hb Hab Hi Hj) as (x & -> & _).
    split; [reflexivity | eexists; reflexivity].
Qed.

Lemma Matrix_operator_add_valid (a b : Matrix) :
  Matrix_valid a -> Matrix_valid b ->
  rows_ a = rows_ b -> cols_ a = cols_ b ->
  exists r,
    Matrix_operator_add a b = Ok r
    /\ Matrix_valid r /\ rows_ r = rows_ a /\ cols_ r = cols_ a
    /\ (forall i j, i < rows_ a -> j < cols_ a ->
          exists x y, entry a i j = Some x /\ entry b i j = Some y
                      /\ entry r i j = Some (x + y)%float).
Proof.
  intros Ha Hb Hrows Hcols.
  pose proof Ha as [(Har & Hac & Halen) Hamax].
  pose proof Hb as [(Hbr & Hbc & Hblen) Hbmax].
  unfold Matrix_operator_add.
  destruct (N.eqb_spec (rows_ a) (rows_ b)) as [_|Hne]; [|contradiction].
  destruct (N.eqb_spec (cols_ a) (cols_ b)) as [_|Hne]; [simpl | contradiction].
  rewrite (Matrix_Matrix_Ok (rows_ a) (cols_ a)) by lia. simpl.
  set (r0 := mkMatrix (rows_ a) (cols_ a)
               (replicate (N.to_nat (rows_ a * cols_ a)) 0%float)).
  set (I := fun (i : N) (r : Matrix) =>
    rows_ r = rows_ a /\ cols_ r = cols_ a
    /\ vec_size (data_ r) = vec_size (data_ a)
    /\ (forall k, k < i ->
          exists x y, data_ a !! N.to_nat k = Some x
                      /\ data_ b !! N.to_nat k = Some y
                      /\ data_ r !! N.to_nat k = Some (x + y)%float)).
  destruct (for_range_inv I (vec_size (data_ a))
    (fun i result =>
       x <- vec_get (data_ a) i ;;
       y <- vec_get (data_ b) i ;;
       slot <- vec_ref (data_ result) i ;;
       Ok (assign result slot (x + y)%float)) r0)
    as (r & Hloop & Hr1 & Hr2 & Hr3 & Hr4).
  - split; [reflexivity|]. split; [reflexivity|]. split.
    + unfold r0, vec_size. simpl. rewrite length_replicate. unfold vec_size in Halen. lia.
    + intros k Hk. lia.
  - intros i t Hi (Ht1 & Ht2 & Ht3 & Ht4).
    destruct (vec_get_lt (data_ a) i Hi) as (x & Hx & ->).
    destruct (vec_get_lt (data_ b) i) as (y & Hy & ->); [lia|]. simpl.
    rewrite vec_ref_lt by lia. simpl.
    exists (assign t i (x + y)%float).
    split; [reflexivity|]. split; [exact Ht1|]. split; [exact Ht2|]. split.
    + unfold vec_size, assign in *. simpl. rewrite length_insert. exact Ht3.
    + intros k Hk. destruct (N.eq_dec k i) as [->|Hne].
      * exists x, y. split; [exact Hx|]. split; [exact Hy|].
        unfold assign. simpl. apply list_lookup_insert_eq. unfold vec_size in *. lia.
      * destruct (Ht4 k) as (x' & y' & Hx' & Hy' & Hr'); [lia|].
        exists x', y'. split; [exact Hx'|]. split; [exact Hy'|].
        unfold assign. simpl. rewrite list_lookup_insert_ne by lia. exact Hr'.
  - exists r. split; [exact Hloop|].
    split; [|split; [exact Hr1|split; [exact Hr2|]]].
    + unfold Matrix_valid, Matrix_inv. rewrite Hr1, Hr2, Hr3. lia.
    + intros i j Hi Hj. unfold entry. rewrite Hr2, <- Hcols.
      apply Hr4. rewrite Halen. apply rowmajor_lt; assumption.
Qed.

(** ** Construction *)

(** C10: the size check of the data-initialised constructor compares the
    length of [data] with [rows * cols] taken modulo 2^64. With [rows] and
    [cols] nonzero, [data] is accepted exactly when its length is
    [rows * cols mod 2^64], and SizeMismatch is thrown exactly when it is
    not. At [rows = cols = 2^32] the product is 2^64: the empty sequence is
    accepted, and the matrix built stores 0 elements, not [rows * cols]. *)
Theorem C10_size_check_wraps :
  (forall rows cols data,
     rows <> 0 -> cols <> 0 ->
     (vec_size data = (rows * cols) mod 2 ^ 64 ->
      Matrix_Matrix_data rows cols data = Ok (mkMatrix rows cols data))
     /\ (vec_size data <> (rows * cols) mod 2 ^ 64 ->
         Matrix_Matrix_data rows cols data = Throw SizeMismatch))
  /\ (forall rows cols data,
       Matrix_Matrix_data rows cols data = Throw SizeMismatch
       <-> rows <> 0 /\ cols <> 0
           /\ vec_size data <> (rows * cols) mod 2 ^ 64)
  /\ (forall rows cols data,
       (exists m, Matrix_Matrix_data rows cols data = Ok m)
       <-> rows <> 0 /\ cols <> 0
           /\ vec_size data = (rows * cols) mod 2 ^ 64)
  /\ (exists rows cols data m,
        0 < rows /\ 0 < cols /\ 2 ^ 64 <= rows * cols
        /\ rows = 2 ^ 32 /\ cols = 2 ^ 32
        /\ vec_size data = (rows * cols) mod 2 ^ 64
        /\ Matrix_Matrix_data rows cols data = Ok m
        /\ vec_size (data_ m) <> rows_ m * cols_ m).
Proof.
  assert (Hcases : forall rows cols data,
    (rows = 0 \/ cols = 0) /\ Matrix_Matrix_data rows cols data = Throw InvalidDimension
    \/ (rows <> 0 /\ cols <> 0 /\ vec_size data <> (rows * cols) mod 2 ^ 64
        /\ Matrix_Matrix_data rows cols data = Throw SizeMismatch)
    \/ (rows <> 0 /\ cols <> 0 /\ vec_size data = (rows * cols) mod 2 ^ 64
        /\ Matrix_Matrix_data rows cols data = Ok (mkMatrix rows cols data))).
  { intros rows cols data. unfold Matrix_Matrix_data, size_mul, wrap, SIZE_MOD.
    destruct (N.eqb_spec rows 0); [left; split; [now left | reflexivity]|].
    destruct (N.eqb_spec cols 0); [left; split; [now right | reflexivity]|].
    simpl. right.
    destruct (N.eqb_spec (vec_size data) ((rows * cols) mod 2 ^ 64));
      [right | left]; repeat split; assumption. }
  split; [|split; [|split]].
  - intros rows cols data Hr Hc.
    destruct (Hcases rows cols data)
      as [[[H | H] _] | [(_ & _ & Hne & E) | (_ & _ & Heq & E)]];
      try contradiction; split; intros H; congruence.
  - intros rows cols data.
    destruct (Hcases rows cols data)
      as [[Hz E] | [(Hr & Hc & Hne & E) | (Hr & Hc & Heq & E)]];
      rewrite E; split.
    + discriminate.
    + intros (Hr & Hc & _). destruct Hz; contradiction.
    + intros _. repeat split; assumption.
    + reflexivity.
    + discriminate.
    + intros (_ & _ & Hne). contradiction.
  - intros rows cols data.
    destruct (Hcases rows cols data)
      as [[Hz E] | [(Hr & Hc & Hne & E) | (Hr & Hc & Heq & E)]];
      rewrite E; split.
    + intros [m Hm]. discriminate.
    + intros (Hr & Hc & _). destruct Hz; contradiction.
    + intros [m Hm]. discriminate.
    + intros (_ & _ & Heq). contradiction.
    + intros _. repeat split; assumption.
    + intros _. eexists. reflexivity.
  - exists (2 ^ 32), (2 ^ 32), [], (mkMatrix (2 ^ 32) (2 ^ 32) []).
    repeat split; try reflexivity; discriminate.
Qed.

(** ** Element access *)

(** C6: on a matrix of shape [(rows, cols)], both variants of [at] throw
    IndexOutOfRange exactly when [row >= rows] or [col >= cols], whatever
    the call; in bounds, the read-write variant refers to slot
    [row * cols + col] of the buffer and the read variant returns the element
    stored there. *)
Theorem C6_at_bounds (m : Matrix) (row col : N) :
  Matrix_valid m ->
  (Matrix_at m row col = Throw IndexOutOfRange
     <-> rows_ m <= row \/ cols_ m <= col)
  /\ (Matrix_at_const m row col = Throw IndexOutOfRange
     <-> rows_ m <= row \/ cols_ m <= col)
  /\ (row < rows_ m -> col < cols_ m ->
      exists x,
        data_ m !! N.to_nat (row * cols_ m + col) = Some x
        /\ Matrix_at m row col = Ok (row * cols_ m + col)
        /\ Matrix_at_const m row col = Ok x).
Proof.
  intros Hv.
  assert (Hcases : (rows_ m <= row \/ cols_ m <= col)
                   \/ (row < rows_ m /\ col < cols_ m)) by lia.
  split; [|split].
  - split; [|apply Matrix_at_out].
    intros H. destruct Hcases as [Hout | [Hr Hc]]; [exact Hout|].
    rewrite Matrix_at_in in H by assumption. discriminate.
  - split; [|apply Matrix_at_const_out].
    intros H. destruct Hcases as [Hout | [Hr Hc]]; [exact Hout|].
    destruct (Matrix_at_const_entry m row col Hv Hr Hc) as (x & _ & Hx).
    rewrite Hx in H. discriminate.
  - intros Hr Hc.
    destruct (Matrix_at_const_entry m row col Hv Hr Hc) as (x & Hx & Hget).
    exists x. split; [exact Hx|]. split; [apply Matrix_at_in; assumption | exact Hget].
Qed.

(** ** Matrices with the same entries are the same matrix *)

Lemma Matrix_entry_ext (m m' : Matrix) :
  Matrix_valid m -> Matrix_valid m' ->
  rows_ m = rows_ m' -> cols_ m = cols_ m' ->
  (forall i j, i < rows_ m -> j < cols_ m -> entry m i j = entry m' i j) ->
  m = m'.
Proof.
  destruct m as [r c d], m' as [r' c' d']. unfold Matrix_valid, Matrix_inv, entry, vec_size.
  simpl. intros [(Hr & Hc & Hlen) _] [(_ & _ & Hlen') _] <- <- Hent.
  f_equal. apply list_eq. intros k.
  destruct (Nat.lt_ge_cases k (length d)) as [Hk|Hk].
  - set (K := N.of_nat k).
    assert (Hc0 : c <> 0) by lia.
    pose proof (N.div_mod K c Hc0) as Hdm.
    pose proof (N.mod_lt K c Hc0) as Hj.
    assert (Hi : K / c < r).
    { apply N.Div0.div_lt_upper_bound. unfold K. lia. }
    specialize (Hent (K / c) (K mod c) Hi Hj).
    replace (N.to_nat (K / c * c + K mod c)) with k in Hent; [exact Hent|].
    unfold K in *. lia.
  - rewrite !lookup_ge_None_2; [reflexivity | lia | lia].
Qed.

(** ** The operations *)

(** C7: on a valid matrix [m] of shape [(rows, cols)], [transpose] returns
    normally; its result has shape [(cols, rows)], is valid, and holds at
    [(j, i)] what [m] holds at [(i, j)]; transposing the result gives [m]
    back, entry by entry and so as a whole. *)
Theorem C7_transpose (m : Matrix) :
  Matrix_valid m ->
  exists t,
    Matrix_transpose m = Ok t
    /\ rows_ t = cols_ m /\ cols_ t = rows_ m /\ Matrix_valid t
    /\ (forall i j, i < rows_ m -> j < cols_ m ->
          exists x, Matrix_at_const m i j = Ok x /\ Matrix_at_const t j i = Ok x)
    /\ (exists u,
          Matrix_transpose t = Ok u
          /\ (forall i j, i < rows_ m -> j < cols_ m ->
                Matrix_at_const u i j = Matrix_at_const m i j)
          /\ u = m).
Proof.
  intros Hv.
  destruct (Matrix_transpose_valid m Hv) as (t & Ht & Htv & Htr & Htc & Hte).
  exists t. split; [exact Ht|]. split; [exact Htr|]. split; [exact Htc|].
  split; [exact Htv|]. split.
  - intros i j Hi Hj.
    destruct (Matrix_at_const_entry m i j Hv Hi Hj) as (x & Hx & Hget).
    exists x. split; [exact Hget|].
    apply Matrix_at_const_Some; [exact Htv | lia | lia |].
    rewrite (Hte i j Hi Hj). exact Hx.
  - destruct (Matrix_transpose_valid t Htv) as (u & Hu & Huv & Hur & Huc & Hue).
    assert (E : u = m).
    { apply Matrix_entry_ext; [exact Huv | exact Hv | lia | lia |].
      intros i j Hi Hj. rewrite (Hue j i) by lia. apply Hte; lia. }
    exists u. split; [exact Hu|]. split; [|exact E].
    intros i j _ _. now rewrite E.
Qed.

(** C2: for valid matrices [a] and [b], [operator+] throws the dimension
    mismatch of addition when they differ in rows or in cols, and otherwise
    returns a valid matrix of the same shape whose element at [(i, j)] is
    [a[i][j] + b[i][j]]. *)
Theorem C2_operator_add (a b : Matrix) :
  Matrix_valid a -> Matrix_valid b ->
  (rows_ a <> rows_ b \/ cols_ a <> cols_ b ->
     Matrix_operator_add a b = Throw DimensionMismatch_add
     /\ is_DimensionMismatch DimensionMismatch_add)
  /\ (rows_ a = rows_ b -> cols_ a = cols_ b ->
      exists r,
        Matrix_operator_add a b = Ok r
        /\ rows_ r = rows_ a /\ cols_ r = cols_ a /\ Matrix_valid r
        /\ (forall i j, i < rows_ a -> j < cols_ a ->
              exists x y,
                Matrix_at_const a i j = Ok x /\ Matrix_at_const b i j = Ok y
                /\ Matrix_at_const r i j = Ok (x + y)%float)).
Proof.
  intros Ha Hb. split.
  - intros Hne. split; [|now left]. unfold Matrix_operator_add.
    destruct (N.eqb_spec (rows_ a) (rows_ b)); [|reflexivity].
    destruct (N.eqb_spec (cols_ a) (cols_ b)); [|reflexivity].
    destruct Hne; contradiction.
  - intros Hrows Hcols.
    destruct (Matrix_operator_add_valid a b Ha Hb Hrows Hcols)
      as (r & Hr & Hrv & Hrr & Hrc & Hre).
    exists r. split; [exact Hr|]. split; [exact Hrr|]. split; [exact Hrc|].
    split; [exact Hrv|].
    intros i j Hi Hj. destruct (Hre i j Hi Hj) as (x & y & Hx & Hy & Hxy).
    exists x, y.
    split; [apply Matrix_at_const_Some; assumption|].
    split; [apply Matrix_at_const_Some; try assumption; lia|].
    apply Matrix_at_const_Some; try assumption; lia.
Qed.

(** C9, as the code has it: for a valid matrix [m] and the zero-filled
    matrix [z] of its shape, [m + z] has the shape of [m], and its element
    at [(i, j)] is [m[i][j] + 0.0]: identical to [m[i][j]] unless that is
    [-0.0] (which comes back as [+0.0]), and equal to it under the IEEE
    comparison unless it is a NaN. *)
Theorem C9_add_zero (m : Matrix) :
  Matrix_valid m ->
  exists z r,
    Matrix_Matrix (rows_ m) (cols_ m) = Ok z
    /\ Matrix_operator_add m z = Ok r
    /\ rows_ r = rows_ m /\ cols_ r = cols_ m
    /\ (forall i j, i < rows_ m -> j < cols_ m ->
          exists x y,
            Matrix_at_const m i j = Ok x /\ Matrix_at_const r i j = Ok y
            /\ y = (x + 0)%float
            /\ (x <> (-0)%float -> y = x)
            /\ (is_nan x = false -> (y =? x)%float = true)).
Proof.
  intros Hv. pose proof Hv as [(Hr & Hc & Hlen) Hmax].
  assert (Hsz : rows_ m * cols_ m <= max_size) by lia.
  set (z := mkMatrix (rows_ m) (cols_ m)
              (replicate (N.to_nat (rows_ m * cols_ m)) 0%float)).
  assert (Hz : Matrix_valid z) by (apply Matrix_Matrix_valid; assumption).
  destruct (Matrix_operator_add_valid m z Hv Hz eq_refl eq_refl)
    as (r & Hadd & Hrv & Hrr & Hrc & Hre).
  exists z, r. split; [apply Matrix_Matrix_Ok; assumption|].
  split; [exact Hadd|]. split; [exact Hrr|]. split; [exact Hrc|].
  intros i j Hi Hj. destruct (Hre i j Hi Hj) as (x & y & Hx & Hy & Hxy).
  assert (y = 0%float) as ->.
  { unfold entry, z in Hy. simpl in Hy.
    apply lookup_replicate in Hy. apply Hy. }
  exists x, (x + 0)%float.
  split; [apply Matrix_at_const_Some; assumption|].
  split; [apply Matrix_at_const_Some; try assumption; lia|].
  split; [reflexivity|].
  split; [apply float_add_zero_r | apply float_add_zero_r_eqb].
Qed.

(** ** The free store and the boundary functions *)

(** Once its result is allocated, [transpose] throws nothing: every [at] it
    calls is within the shape it checks against. *)
Lemma Matrix_transpose_throws (m : Matrix) (e : exn) :
  0 < rows_ m -> 0 < cols_ m ->
  Matrix_transpose m = Throw e ->
  e = length_error /\ max_size < size_mul (cols_ m) (rows_ m).
Proof.
  intros Hr Hc. unfold Matrix_transpose, Matrix_Matrix, vec_fill.
  destruct (N.ltb_spec max_size (size_mul (cols_ m) (rows_ m))) as [Hlt|Hle]; simpl.
  - intros [= <-]. split; [reflexivity | exact Hlt].
  - destruct (N.eqb_spec (cols_ m) 0); [lia|].
    destruct (N.eqb_spec (rows_ m) 0); [lia|]. simpl.
    set (P := fun r : Matrix => rows_ r = cols_ m /\ cols_ r = rows_ m).
    intros H. exfalso.
    match type of H with ?loop = _ =>
      assert (Hn : match loop with Ok s' => P s' | Throw _ => False | UB => True end)
    end.
    { apply for_range_no_throw; [split; reflexivity|].
      intros i t Hi Ht. apply for_range_no_throw; [exact Ht|].
      intros j u Hj [Hu1 Hu2].
      unfold Matrix_at_const. rewrite bounds_check_in by assumption.
      unfold vec_get. destruct (data_ m !! _); simpl; [|exact I].
      unfold Matrix_at_assign, Matrix_at. rewrite bounds_check_in by lia.
      unfold vec_ref. destruct (_ <? _); simpl; [|exact I].
      split; assumption. }
    rewrite H in Hn. exact Hn.
Qed.

Lemma Matrix_Matrix_Ok_inv (rows cols : N) (m : Matrix) :
  Matrix_Matrix rows cols = Ok m ->
  rows <> 0 /\ cols <> 0 /\ size_mul rows cols <= max_size
  /\ m = mkMatrix rows cols (replicate (N.to_nat (size_mul rows cols)) 0%float).
Proof.
  unfold Matrix_Matrix, vec_fill.
  destruct (N.ltb_spec max_size (size_mul rows cols)); simpl; [discriminate|].
  destruct (N.eqb_spec rows 0); [discriminate|].
  destruct (N.eqb_spec cols 0); [discriminate|]. simpl.
  intros [= <-]. repeat split; assumption.
Qed.

(** ** The boundary *)

Lemma Matrix_Matrix_throws (rows cols : N) (e : exn) :
  Matrix_Matrix rows cols = Throw e ->
  (e = length_error /\ max_size < size_mul rows cols)
  \/ (e = InvalidDimension /\ (rows = 0 \/ cols = 0)).
Proof.
  unfold Matrix_Matrix, vec_fill.
  destruct (N.ltb_spec max_size (size_mul rows cols)); simpl.
  - intros [= <-]. left. now split.
  - destruct (N.eqb_spec rows 0); [intros [= <-]; right; split; [reflexivity | now left]|].
    destruct (N.eqb_spec cols 0); [intros [= <-]; right; split; [reflexivity | now right]|].
    discriminate.
Qed.

Lemma vec_alloc_dec (mem : allocator) (n : N) :
  vec_refused mem n \/ (n <= max_size /\ (n = 0 \/ vec_alloc mem n = true)).
Proof.
  unfold vec_refused.
  destruct (N.lt_ge_cases max_size n) as [H|H]; [now left; left|].
  destruct (N.eq_dec n 0) as [->|Hn]; [right; split; [exact H | now left]|].
  destruct (vec_alloc mem n) eqn:E; [right; split; [exact H | now right]|].
  left. right. now split.
Qed.

(** Where the request is granted, the two embeddings agree. *)
Lemma vec_fill_alloc_granted (mem : allocator) (n : N) (x : float) :
  n = 0 \/ vec_alloc mem n = true -> vec_fill_alloc mem n x = vec_fill n x.
Proof.
  intros H. unfold vec_fill_alloc, vec_fill.
  destruct (max_size <? n); [reflexivity|].
  destruct H as [-> | ->]; [reflexivity | now rewrite orb_true_r].
Qed.

Lemma vec_fill_alloc_refused (mem : allocator) (n : N) (x : float) :
  vec_refused mem n ->
  exists e, vec_fill_alloc mem n x = Throw e
            /\ (e = length_error \/ e = bad_alloc).
Proof.
  intros [H | [Hn Hv]]; unfold vec_fill_alloc.
  - destruct (N.ltb_spec max_size n); [eauto | lia].
  - destruct (max_size <? n); [eauto|].
    destruct (N.eqb_spec n 0); [contradiction|]. rewrite Hv. simpl. eauto.
Qed.

Lemma Matrix_Matrix_alloc_granted (mem : allocator) (rows cols : N) :
  size_mul rows cols = 0 \/ vec_alloc mem (size_mul rows cols) = true ->
  Matrix_Matrix_alloc mem rows cols = Matrix_Matrix rows cols.
Proof.
  intros H. unfold Matrix_Matrix_alloc, Matrix_Matrix.
  now rewrite vec_fill_alloc_granted.
Qed.

Lemma Matrix_Matrix_alloc_refused (mem : allocator) (rows cols : N) :
  vec_refused mem (size_mul rows cols) ->
  exists e, Matrix_Matrix_alloc mem rows cols = Throw e
            /\ (e = length_error \/ e = bad_alloc).
Proof.
  intros H. unfold Matrix_Matrix_alloc.
  destruct (vec_fill_alloc_refused mem _ 0%float H) as (e & -> & He).
  exists e. now split.
Qed.

Lemma Matrix_operator_add_alloc_granted (mem : allocator) (a b : Matrix) :
  size_mul (rows_ a) (cols_ a) = 0
  \/ vec_alloc mem (size_mul (rows_ a) (cols_ a)) = true ->
  Matrix_operator_add_alloc mem a b = Matrix_operator_add a b.
Proof.
  intros H. unfold Matrix_operator_add_alloc, Matrix_operator_add.
  now rewrite Matrix_Matrix_alloc_granted.
Qed.

Lemma Matrix_operator_mul_alloc_granted (mem : allocator) (a b : Matrix) :
  size_mul (rows_ a) (cols_ b) = 0
  \/ vec_alloc mem (size_mul (rows_ a) (cols_ b)) = true ->
  Matrix_operator_mul_alloc mem a b = Matrix_operator_mul a b.
Proof.
  intros H. unfold Matrix_operator_mul_alloc, Matrix_operator_mul.
  now rewrite Matrix_Matrix_alloc_granted.
Qed.

Lemma Matrix_transpose_alloc_granted (mem : allocator) (m : Matrix) :
  size_mul (cols_ m) (rows_ m) = 0
  \/ vec_alloc mem (size_mul (cols_ m) (rows_ m)) = true ->
  Matrix_transpose_alloc mem m = Matrix_transpose m.
Proof.
  intros H. unfold Matrix_transpose_alloc, Matrix_transpose.
  now rewrite Matrix_Matrix_alloc_granted.
Qed.




(** ** Further properties of the value type

    What the source shows beyond the specification's statements. *)

(** Assignment through [at] on a valid matrix: the element written reads
    back, every other position reads what it did, and the matrix keeps its
    shape and stays valid. *)
Theorem at_assign_read_back (m : Matrix) (row col : N) (x : float) :
  Matrix_valid m -> row < rows_ m -> col < cols_ m ->
  exists m',
    Matrix_at_assign m row col x = Ok m'
    /\ rows_ m' = rows_ m /\ cols_ m' = cols_ m /\ Matrix_valid m'
    /\ Matrix_at_const m' row col = Ok x
    /\ (forall row' col', row' < rows_ m -> col' < cols_ m ->
          (row', col') <> (row, col) ->
          Matrix_at_const m' row' col' = Matrix_at_const m row' col').
Proof.
  intros Hv Hr Hc.
  destruct (Matrix_at_assign_in m row col x Hv Hr Hc)
    as (m' & Hasg & Hv' & Hrows & Hcols & Hnew & Hold).
  exists m'. split; [exact Hasg|]. split; [exact Hrows|]. split; [exact Hcols|].
  split; [exact Hv'|]. split.
  - apply Matrix_at_const_Some; [exact Hv' | lia | lia | exact Hnew].
  - intros row' col' Hr' Hc' Hne.
    destruct (Matrix_at_const_entry m row' col' Hv Hr' Hc') as (y & Hy & ->).
    apply Matrix_at_const_Some; [exact Hv' | lia | lia |].
    rewrite (Hold row' col' Hc' Hne). exact Hy.
Qed.

Lemma mul_sum_no_throw (a b : Matrix) (i j : N) :
  cols_ a = rows_ b -> i < rows_ a -> j < cols_ b ->
  forall e, Matrix_operator_mul_sum a b i j <> Throw e.
Proof.
  intros Hab Hi Hj e H. unfold Matrix_operator_mul_sum in H.
  match type of H with ?loop = _ =>
    assert (Hn : match loop with
                 | Ok _ => True | Throw _ => False | UB => True end)
  end.
  { apply (for_range_no_throw (fun _ => True)); [exact I|].
    intros k t Hk _. unfold Matrix_at_const.
    rewrite (bounds_check_in a i k) by assumption.
    rewrite (bounds_check_in b k j) by lia.
    unfold vec_get. destruct (data_ a !! _); simpl; [|exact I].
    destruct (data_ b !! _); simpl; exact I. }
  rewrite H in Hn. exact Hn.
Qed.

(** Where storage is taken for granted, what the three operations can
    throw. *)
Lemma operations_throw_granted (a b : Matrix) (e : exn) :
  (Matrix_operator_add a b = Throw e ->
     (e = DimensionMismatch_add
      /\ (rows_ a <> rows_ b \/ cols_ a <> cols_ b))
     \/ (e = length_error /\ max_size < size_mul (rows_ a) (cols_ a))
     \/ (e = InvalidDimension /\ (rows_ a = 0 \/ cols_ a = 0)))
  /\ (Matrix_operator_mul a b = Throw e ->
      (e = DimensionMismatch_mul /\ cols_ a <> rows_ b)
      \/ (e = length_error /\ max_size < size_mul (rows_ a) (cols_ b))
      \/ (e = InvalidDimension /\ (rows_ a = 0 \/ cols_ b = 0)))
  /\ (Matrix_transpose a = Throw e ->
      (e = length_error /\ max_size < size_mul (cols_ a) (rows_ a))
      \/ (e = InvalidDimension /\ (cols_ a = 0 \/ rows_ a = 0))).
Proof.
  split; [|split].
  - unfold Matrix_operator_add.
    destruct (N.eqb_spec (rows_ a) (rows_ b)) as [Hrows|Hne];
      [|intros [= <-]; left; split; [reflexivity | now left]].
    destruct (N.eqb_spec (cols_ a) (cols_ b)) as [Hcols|Hne];
      [simpl | intros [= <-]; left; split; [reflexivity | now right]].
    destruct (Matrix_Matrix (rows_ a) (cols_ a)) as [r0|e0|] eqn:E; simpl;
      [| intros [= <-]; right; now apply Matrix_Matrix_throws | discriminate].
    intros H. exfalso.
    match type of H with ?loop = _ =>
      assert (Hn : match loop with
                   | Ok _ => True | Throw _ => False | UB => True end)
    end.
    { apply (for_range_no_throw (fun _ => True)); [exact I|].
      intros k t Hk _. unfold vec_get, vec_ref.
      destruct (data_ a !! _); simpl; [|exact I].
      destruct (data_ b !! _); simpl; [|exact I].
      destruct (_ <? _); simpl; exact I. }
    rewrite H in Hn. exact Hn.
  - unfold Matrix_operator_mul.
    destruct (N.eqb_spec (cols_ a) (rows_ b)) as [Hab|Hne];
      [simpl | intros [= <-]; left; now split].
    destruct (Matrix_Matrix (rows_ a) (cols_ b)) as [r0|e0|] eqn:E; simpl;
      [| intros [= <-]; right; now apply Matrix_Matrix_throws | discriminate].
    destruct (Matrix_Matrix_Ok_inv _ _ _ E) as (_ & _ & _ & ->).
    intros H. exfalso.
    set (P := fun r : Matrix => rows_ r = rows_ a /\ cols_ r = cols_ b).
    match type of H with ?loop = _ =>
      assert (Hn : match loop with
                   | Ok s' => P s' | Throw _ => False | UB => True end)
    end.
    { apply for_range_no_throw; [split; reflexivity|].
      intros i t Hi Ht. apply for_range_no_throw; [exact Ht|].
      intros j u Hj [Hu1 Hu2].
      pose proof (mul_sum_no_throw a b i j Hab Hi Hj) as Hsum.
      destruct (Matrix_operator_mul_sum a b i j) as [sum|e'|]; simpl;
        [| now destruct (Hsum e') | exact I].
      unfold Matrix_at_assign, Matrix_at. rewrite bounds_check_in by lia.
      unfold vec_ref. destruct (_ <? _); simpl; [|exact I].
      split; assumption. }
    rewrite H in Hn. exact Hn.
  - intros H.
    destruct (N.eq_dec (rows_ a) 0) as [Hr|Hr];
      [|destruct (N.eq_dec (cols_ a) 0) as [Hc|Hc]].
    + unfold Matrix_transpose in H.
      destruct (Matrix_Matrix (cols_ a) (rows_ a)) as [r0|e0|] eqn:E.
      * destruct (Matrix_Matrix_Ok_inv _ _ _ E) as (_ & Hne & _). contradiction.
      * simpl in H. injection H as <-. now apply Matrix_Matrix_throws.
      * discriminate.
    + unfold Matrix_transpose in H.
      destruct (Matrix_Matrix (cols_ a) (rows_ a)) as [r0|e0|] eqn:E.
      * destruct (Matrix_Matrix_Ok_inv _ _ _ E) as (Hne & _). contradiction.
      * simpl in H. injection H as <-. now apply Matrix_Matrix_throws.
      * discriminate.
    + left. apply Matrix_transpose_throws; [lia | lia | exact H].
Qed.

Lemma Matrix_Matrix_alloc_throws (mem : allocator) (rows cols : N) (e : exn) :
  Matrix_Matrix_alloc mem rows cols = Throw e ->
  (e = length_error /\ max_size < size_mul rows cols)
  \/ (e = bad_alloc /\ size_mul rows cols <= max_size
      /\ size_mul rows cols <> 0
      /\ vec_alloc mem (size_mul rows cols) = false)
  \/ (e = InvalidDimension /\ (rows = 0 \/ cols = 0)).
Proof.
  unfold Matrix_Matrix_alloc, vec_fill_alloc.
  destruct (N.ltb_spec max_size (size_mul rows cols)); simpl.
  - intros [= <-]. left. now split.
  - destruct (N.eqb_spec (size_mul rows cols) 0) as [Hz|Hz]; simpl;
      [|destruct (vec_alloc mem (size_mul rows cols)) eqn:Ev; simpl].
    3: { intros [= <-]. right. left. repeat split; assumption. }
    all: destruct (N.eqb_spec rows 0);
      [intros [= <-]; right; right; split; [reflexivity | now left]|];
      destruct (N.eqb_spec cols 0);
      [intros [= <-]; right; right; split; [reflexivity | now right]|];
      discriminate.
Qed.

(** The checks inside [at] never fire within the three operations, whatever
    the operands and whatever the free store answers. Each throws only its
    own dimension mismatch, or what constructing its result throws:
    length_error when the result is beyond [max_size], bad_alloc when its
    buffer is refused, InvalidDimension when an operand has a zero
    dimension. None ever throws IndexOutOfRange. *)
Theorem operations_throw_only (mem : allocator) (a b : Matrix) (e : exn) :
  (Matrix_operator_add_alloc mem a b = Throw e ->
     (e = DimensionMismatch_add
      /\ (rows_ a <> rows_ b \/ cols_ a <> cols_ b))
     \/ (e = length_error /\ max_size < size_mul (rows_ a) (cols_ a))
     \/ (e = bad_alloc /\ size_mul (rows_ a) (cols_ a) <= max_size
         /\ size_mul (rows_ a) (cols_ a) <> 0
         /\ vec_alloc mem (size_mul (rows_ a) (cols_ a)) = false)
     \/ (e = InvalidDimension /\ (rows_ a = 0 \/ cols_ a = 0)))
  /\ (Matrix_operator_mul_alloc mem a b = Throw e ->
      (e = DimensionMismatch_mul /\ cols_ a <> rows_ b)
      \/ (e = length_error /\ max_size < size_mul (rows_ a) (cols_ b))
      \/ (e = bad_alloc /\ size_mul (rows_ a) (cols_ b) <= max_size
          /\ size_mul (rows_ a) (cols_ b) <> 0
          /\ vec_alloc mem (size_mul (rows_ a) (cols_ b)) = false)
      \/ (e = InvalidDimension /\ (rows_ a = 0 \/ cols_ b = 0)))
  /\ (Matrix_transpose_alloc mem a = Throw e ->
      (e = length_error /\ max_size < size_mul (cols_ a) (rows_ a))
      \/ (e = bad_alloc /\ size_mul (cols_ a) (rows_ a) <= max_size
          /\ size_mul (cols_ a) (rows_ a) <> 0
          /\ vec_alloc mem (size_mul (cols_ a) (rows_ a)) = false)
      \/ (e = InvalidDimension /\ (cols_ a = 0 \/ rows_ a = 0)))
  /\ (Matrix_operator_add_alloc mem a b <> Throw IndexOutOfRange
      /\ Matrix_operator_mul_alloc mem a b <> Throw IndexOutOfRange
      /\ Matrix_transpose_alloc mem a <> Throw IndexOutOfRange).
Proof.
  revert e.
  assert (Hadd : forall e, Matrix_operator_add_alloc mem a b = Throw e ->
     (e = DimensionMismatch_add
      /\ (rows_ a <> rows_ b \/ cols_ a <> cols_ b))
     \/ (e = length_error /\ max_size < size_mul (rows_ a) (cols_ a))
     \/ (e = bad_alloc /\ size_mul (rows_ a) (cols_ a) <= max_size
         /\ size_mul (rows_ a) (cols_ a) <> 0
         /\ vec_alloc mem (size_mul (rows_ a) (cols_ a)) = false)
     \/ (e = InvalidDimension /\ (rows_ a = 0 \/ cols_ a = 0))).
  { intros e H.
    destruct (operations_throw_granted a b e) as (Gadd & _ & _).
    destruct (vec_alloc_dec mem (size_mul (rows_ a) (cols_ a)))
      as [Href | [_ Hg]].
    - unfold Matrix_operator_add_alloc in H.
      destruct (N.eqb_spec (rows_ a) (rows_ b));
        [|injection H as <-; left; split; [reflexivity | now left]].
      destruct (N.eqb_spec (cols_ a) (cols_ b));
        [simpl in H | injection H as <-; left; split; [reflexivity | now right]].
      destruct (Matrix_Matrix_alloc_refused mem _ _ Href) as (e' & E & _).
      rewrite E in H. simpl in H. injection H as <-.
      right. apply (Matrix_Matrix_alloc_throws mem _ _ e' E).
    - rewrite Matrix_operator_add_alloc_granted in H by exact Hg.
      destruct (Gadd H) as [G | [G | G]]; tauto. }
  assert (Hmul : forall e, Matrix_operator_mul_alloc mem a b = Throw e ->
      (e = DimensionMismatch_mul /\ cols_ a <> rows_ b)
      \/ (e = length_error /\ max_size < size_mul (rows_ a) (cols_ b))
      \/ (e = bad_alloc /\ size_mul (rows_ a) (cols_ b) <= max_size
          /\ size_mul (rows_ a) (cols_ b) <> 0
          /\ vec_alloc mem (size_mul (rows_ a) (cols_ b)) = false)
      \/ (e = InvalidDimension /\ (rows_ a = 0 \/ cols_ b = 0))).
  { intros e H.
    destruct (operations_throw_granted a b e) as (_ & Gmul & _).
    destruct (vec_alloc_dec mem (size_mul (rows_ a) (cols_ b)))
      as [Href | [_ Hg]].
    - unfold Matrix_operator_mul_alloc in H.
      destruct (N.eqb_spec (cols_ a) (rows_ b));
        [simpl in H | injection H as <-; left; now split].
      destruct (Matrix_Matrix_alloc_refused mem _ _ Href) as (e' & E & _).
      rewrite E in H. simpl in H. injection H as <-.
      right. apply (Matrix_Matrix_alloc_throws mem _ _ e' E).
    - rewrite Matrix_operator_mul_alloc_granted in H by exact Hg.
      destruct (Gmul H) as [G | [G | G]]; tauto. }
  assert (Htr : forall e, Matrix_transpose_alloc mem a = Throw e ->
      (e = length_error /\ max_size < size_mul (cols_ a) (rows_ a))
      \/ (e = bad_alloc /\ size_mul (cols_ a) (rows_ a) <= max_size
          /\ size_mul (cols_ a) (rows_ a) <> 0
          /\ vec_alloc mem (size_mul (cols_ a) (rows_ a)) = false)
      \/ (e = InvalidDimension /\ (cols_ a = 0 \/ rows_ a = 0))).
  { intros e H.
    destruct (operations_throw_granted a b e) as (_ & _ & Gtr).
    destruct (vec_alloc_dec mem (size_mul (cols_ a) (rows_ a)))
      as [Href | [_ Hg]].
    - unfold Matrix_transpose_alloc in H.
      destruct (Matrix_Matrix_alloc_refused mem _ _ Href) as (e' & E & _).
      rewrite E in H. simpl in H. injection H as <-.
      apply (Matrix_Matrix_alloc_throws mem _ _ e' E).
    - rewrite Matrix_transpose_alloc_granted in H by exact Hg.
      destruct (Gtr H) as [G | G]; tauto. }
  intros e. split; [apply Hadd|]. split; [apply Hmul|]. split; [apply Htr|].
  split; [|split]; intros H.
  - destruct (Hadd _ H) as [[G _] | [[G _] | [[G _] | [G _]]]]; discriminate.
  - destruct (Hmul _ H) as [[G _] | [[G _] | [[G _] | [G _]]]]; discriminate.
  - destruct (Htr _ H) as [[G _] | [[G _] | [G _]]]; discriminate.
Qed.

(** [operator+] in closed form: on operands of one shape whose buffers have
    the length a constructor gives them ([rows * cols] modulo 2^64), the
    result has that shape and its buffer is the element-by-element sum of
    the two buffers. *)
Lemma Matrix_operator_add_zip (a b : Matrix) :
  rows_ a = rows_ b -> cols_ a = cols_ b ->
  rows_ a <> 0 -> cols_ a <> 0 ->
  vec_size (data_ a) = size_mul (rows_ a) (cols_ a) ->
  vec_size (data_ b) = vec_size (data_ a) ->
  vec_size (data_ a) <= max_size ->
  Matrix_operator_add a b
  = Ok (mkMatrix (rows_ a) (cols_ a)
          (zip_with PrimFloat.add (data_ a) (data_ b))).
Proof.
  intros Hrows Hcols Hr Hc Hlen Hlenb Hmax. unfold Matrix_operator_add.
  destruct (N.eqb_spec (rows_ a) (rows_ b)) as [_|Hne]; [|contradiction].
  destruct (N.eqb_spec (cols_ a) (cols_ b)) as [_|Hne]; [simpl | contradiction].
  unfold Matrix_Matrix. rewrite vec_fill_Ok by lia. simpl.
  destruct (N.eqb_spec (rows_ a) 0); [contradiction|].
  destruct (N.eqb_spec (cols_ a) 0); [contradiction|]. simpl.
  set (r0 := mkMatrix (rows_ a) (cols_ a)
               (replicate (N.to_nat (size_mul (rows_ a) (cols_ a))) 0%float)).
  set (I := fun (i : N) (r : Matrix) =>
    rows_ r = rows_ a /\ cols_ r = cols_ a
    /\ vec_size (data_ r) = vec_size (data_ a)
    /\ (forall k, k < i ->
          exists x y, data_ a !! N.to_nat k = Some x
                      /\ data_ b !! N.to_nat k = Some y
                      /\ data_ r !! N.to_nat k = Some (x + y)%float)).
  destruct (for_range_inv I (vec_size (data_ a))
    (fun i result =>
       x <- vec_get (data_ a) i ;;
       y <- vec_get (data_ b) i ;;
       slot <- vec_ref (data_ result) i ;;
       Ok (assign result slot (x + y)%float)) r0)
    as (r & Hloop & Hr1 & Hr2 & Hr3 & Hr4).
  - split; [reflexivity|]. split; [reflexivity|]. split.
    + unfold r0, vec_size. simpl. rewrite length_replicate. unfold vec_size in Hlen. lia.
    + intros k Hk. lia.
  - intros i t Hi (Ht1 & Ht2 & Ht3 & Ht4).
    destruct (vec_get_lt (data_ a) i Hi) as (x & Hx & ->).
    destruct (vec_get_lt (data_ b) i) as (y & Hy & ->); [lia|]. simpl.
    rewrite vec_ref_lt by lia. simpl.
    exists (assign t i (x + y)%float).
    split; [reflexivity|]. split; [exact Ht1|]. split; [exact Ht2|]. split.
    + unfold vec_size, assign in *. simpl. rewrite length_insert. exact Ht3.
    + intros k Hk. destruct (N.eq_dec k i) as [->|Hne].
      * exists x, y. split; [exact Hx|]. split; [exact Hy|].
        unfold assign. simpl. apply list_lookup_insert_eq. unfold vec_size in *. lia.
      * destruct (Ht4 k) as (x' & y' & Hx' & Hy' & Hr'); [lia|].
        exists x', y'. split; [exact Hx'|]. split; [exact Hy'|].
        unfold assign. simpl. rewrite list_lookup_insert_ne by lia. exact Hr'.
  - rewrite Hloop. f_equal. destruct r as [rr rc rd]. simpl in *. subst rr rc.
    f_equal. apply list_eq. intros k. rewrite lookup_zip_with.
    unfold vec_size in *.
    destruct (Nat.lt_ge_cases k (length (data_ a))) as [Hk|Hk].
    + destruct (Hr4 (N.of_nat k)) as (x & y & Hx & Hy & Hxy); [lia|].
      rewrite Nat2N.id in Hx, Hy, Hxy. rewrite Hxy, Hx. simpl. rewrite Hy. reflexivity.
    + rewrite (lookup_ge_None_2 rd) by lia.
      rewrite (lookup_ge_None_2 (data_ a)) by lia. reflexivity.
Qed.

Lemma Matrix_valid_built (m : Matrix) : Matrix_valid m -> Matrix_built m.
Proof.
  intros [(Hr & Hc & Hlen) Hmax]. pose proof max_size_lt_SIZE as Hm.
  unfold Matrix_built, size_mul. rewrite wrap_small by lia. lia.
Qed.


(** Addition commutes, exception included: [a + b] and [b + a] are the same
    outcome for any two matrices as the constructors build them. *)
Theorem operator_add_comm (a b : Matrix) :
  Matrix_built a -> Matrix_built b ->
  Matrix_operator_add a b = Matrix_operator_add b a.
Proof.
  intros (Har & Hac & Halen & Hamax) (Hbr & Hbc & Hblen & Hbmax).
  destruct (N.eq_dec (rows_ a) (rows_ b)) as [Hrows|Hrows];
    [destruct (N.eq_dec (cols_ a) (cols_ b)) as [Hcols|Hcols]|].
  - assert (Hlen : vec_size (data_ b) = vec_size (data_ a)).
    { rewrite Halen, Hblen, Hrows, Hcols. reflexivity. }
    rewrite (Matrix_operator_add_zip a b) by assumption.
    rewrite (Matrix_operator_add_zip b a) by (try assumption; congruence).
    rewrite <- Hrows, <- Hcols. do 2 f_equal.
    apply list_eq. intros k. rewrite !lookup_zip_with.
    destruct (data_ a !! k) as [x|], (data_ b !! k) as [y|]; simpl; try reflexivity.
    now rewrite float_add_comm.
  - unfold Matrix_operator_add.
    destruct (N.eqb_spec (cols_ a) (cols_ b)); [contradiction|].
    destruct (N.eqb_spec (cols_ b) (cols_ a)); [congruence|].
    now rewrite !orb_true_r.
  - unfold Matrix_operator_add.
    destruct (N.eqb_spec (rows_ a) (rows_ b)); [contradiction|].
    destruct (N.eqb_spec (rows_ b) (rows_ a)); [congruence|]. reflexivity.
Qed.

(** Transposition distributes over addition, exactly: the transpose of
    [a + b] is the sum of the transposes. *)
Theorem transpose_add (a b : Matrix) :
  Matrix_valid a -> Matrix_valid b ->
  rows_ a = rows_ b -> cols_ a = cols_ b ->
  exists s ta tb t,
    Matrix_operator_add a b = Ok s
    /\ Matrix_transpose a = Ok ta /\ Matrix_transpose b = Ok tb
    /\ Matrix_transpose s = Ok t
    /\ Matrix_operator_add ta tb = Ok t.
Proof.
  intros Ha Hb Hrows Hcols.
  destruct (Matrix_operator_add_valid a b Ha Hb Hrows Hcols)
    as (s & Hs & Hsv & Hsr & Hsc & Hse).
  destruct (Matrix_transpose_valid a Ha) as (ta & Hta & Htav & Htar & Htac & Htae).
  destruct (Matrix_transpose_valid b Hb) as (tb & Htb & Htbv & Htbr & Htbc & Htbe).
  destruct (Matrix_transpose_valid s Hsv) as (t & Ht & Htv & Htr & Htc & Hte).
  destruct (Matrix_operator_add_valid ta tb Htav Htbv)
    as (u & Hu & Huv & Hur & Huc & Hue); [congruence | congruence |].
  exists s, ta, tb, t. split; [exact Hs|]. split; [exact Hta|].
  split; [exact Htb|]. split; [exact Ht|].
  rewrite Hu. f_equal. apply Matrix_entry_ext; [exact Huv | exact Htv | lia | lia |].
  intros j i Hj Hi.
  destruct (Hue j i) as (x & y & Hx & Hy & ->); [lia | lia |].
  rewrite (Hte i j) by lia.
  destruct (Hse i j) as (x' & y' & Hx' & Hy' & ->); [lia | lia |].
  rewrite (Htae i j) in Hx by lia. rewrite (Htbe i j) in Hy by lia.
  congruence.
Qed.

Lemma size_mul_small (x y : N) : x * y <= max_size -> size_mul x y = x * y.
Proof.
  intros H. pose proof max_size_lt_SIZE. unfold size_mul. apply wrap_small. lia.
Qed.

(** Where storage is taken for granted: the transpose of [a * b] is
    [transpose b * transpose a]. *)
Lemma transpose_mul_granted (a b : Matrix) :
  Matrix_valid a -> Matrix_valid b ->
  cols_ a = rows_ b -> rows_ a * cols_ b <= max_size ->
  exists p ta tb t,
    Matrix_operator_mul a b = Ok p
    /\ Matrix_transpose a = Ok ta /\ Matrix_transpose b = Ok tb
    /\ Matrix_transpose p = Ok t
    /\ Matrix_operator_mul tb ta = Ok t
    /\ (rows_ p = rows_ a /\ cols_ p = cols_ b)
    /\ (rows_ ta = cols_ a /\ cols_ ta = rows_ a)
    /\ (rows_ tb = cols_ b /\ cols_ tb = rows_ b).
Proof.
  intros Ha Hb Hab Hsz.
  destruct (Matrix_operator_mul_valid a b Ha Hb Hab Hsz)
    as (p & Hp & Hpv & Hpr & Hpc & Hpe).
  destruct (Matrix_transpose_valid a Ha) as (ta & Hta & Htav & Htar & Htac & Htae).
  destruct (Matrix_transpose_valid b Hb) as (tb & Htb & Htbv & Htbr & Htbc & Htbe).
  destruct (Matrix_transpose_valid p Hpv) as (t & Ht & Htv & Htr & Htc & Hte).
  destruct (Matrix_operator_mul_valid tb ta Htbv Htav)
    as (u & Hu & Huv & Hur & Huc & Hue); [congruence | lia |].
  exists p, ta, tb, t. split; [exact Hp|]. split; [exact Hta|].
  split; [exact Htb|]. split; [exact Ht|].
  split; [|repeat split; assumption].
  rewrite Hu. f_equal. apply Matrix_entry_ext; [exact Huv | exact Htv | lia | lia |].
  intros j i Hj Hi.
  destruct (Hue j i) as [-> _]; [lia | lia |].
  rewrite (Hte i j) by lia.
  destruct (Hpe i j) as [-> _]; [lia | lia |].
  unfold spec_dot. rewrite Htbc, <- Hab.
  apply foldl_ext_in. intros k Hk acc.
  apply elem_of_seq in Hk. unfold spec_term.
  rewrite (Htbe (N.of_nat k) j) by lia. rewrite (Htae i (N.of_nat k)) by lia.
  destruct acc as [acc|]; [|reflexivity].
  destruct (entry a i (N.of_nat k)) as [x|], (entry b (N.of_nat k) j) as [y|];
    try reflexivity.
  now rewrite float_mul_comm.
Qed.

(** Transposition reverses a product, exactly. For valid [a] and [b] with
    agreeing inner dimensions, when the free store grants the buffers the
    five operations ask for (of the sizes of [a], of [b] and of the
    product), [a * b], the three transposes and
    [transpose b * transpose a] all return, and the transpose of [a * b] is
    [transpose b * transpose a]: the k-th terms are the same two factors in
    the other order, added in the same order. *)
Theorem transpose_mul (mem : allocator) (a b : Matrix) :
  Matrix_valid a -> Matrix_valid b ->
  cols_ a = rows_ b -> rows_ a * cols_ b <= max_size ->
  vec_alloc mem (rows_ a * cols_ a) = true ->
  vec_alloc mem (rows_ b * cols_ b) = true ->
  vec_alloc mem (rows_ a * cols_ b) = true ->
  exists p ta tb t,
    Matrix_operator_mul_alloc mem a b = Ok p
    /\ Matrix_transpose_alloc mem a = Ok ta
    /\ Matrix_transpose_alloc mem b = Ok tb
    /\ Matrix_transpose_alloc mem p = Ok t
    /\ Matrix_operator_mul_alloc mem tb ta = Ok t.
Proof.
  intros Ha Hb Hab Hsz Ga Gb Gp.
  destruct (transpose_mul_granted a b Ha Hb Hab Hsz)
    as (p & ta & tb & t & Hp & Hta & Htb & Ht & Hu
        & [Hpr Hpc] & [Htar Htac] & [Htbr Htbc]).
  pose proof Ha as [(_ & _ & Halen) Hamax].
  pose proof Hb as [(_ & _ & Hblen) Hbmax].
  exists p, ta, tb, t.
  split; [rewrite Matrix_operator_mul_alloc_granted; [exact Hp|]|].
  { right. rewrite size_mul_small by exact Hsz. exact Gp. }
  split; [rewrite Matrix_transpose_alloc_granted; [exact Hta|]|].
  { right. rewrite size_mul_small by lia.
    rewrite (N.mul_comm (cols_ a)). exact Ga. }
  split; [rewrite Matrix_transpose_alloc_granted; [exact Htb|]|].
  { right. rewrite size_mul_small by lia.
    rewrite (N.mul_comm (cols_ b)). exact Gb. }
  split; [rewrite Matrix_transpose_alloc_granted; [exact Ht|]|].
  { right. rewrite Hpr, Hpc. rewrite size_mul_small by lia.
    rewrite (N.mul_comm (cols_ b)). exact Gp. }
  rewrite Matrix_operator_mul_alloc_granted; [exact Hu|].
  right. rewrite Htbr, Htac. rewrite size_mul_small by lia.
  rewrite (N.mul_comm (cols_ b)). exact Gp.
Qed.

(** In a buffer shorter than [rows * cols] some position within the shape
    lies out of the buffer. *)
Lemma short_buffer_read (m : Matrix) :
  Matrix_built m -> vec_size (data_ m) < rows_ m * cols_ m ->
  exists i j, i < rows_ m /\ j < cols_ m /\ Matrix_at_const m i j = UB.
Proof.
  intros (Hr & Hc & Hlen & Hmax) Hshort. pose proof max_size_lt_SIZE as Hm.
  remember (vec_size (data_ m)) as w eqn:Hw.
  pose proof (N.div_mod w (cols_ m) Hc) as Hdm.
  rewrite (N.mul_comm (cols_ m)) in Hdm.
  pose proof (N.mod_lt w (cols_ m) Hc) as Hj.
  assert (Hi : w / cols_ m < rows_ m).
  { apply N.Div0.div_lt_upper_bound. rewrite (N.mul_comm (cols_ m)). lia. }
  exists (w / cols_ m), (w mod cols_ m). split; [exact Hi|]. split; [exact Hj|].
  unfold Matrix_at_const. rewrite bounds_check_in by assumption.
  apply vec_get_ge. rewrite <- Hw. unfold size_add, size_mul.
  revert Hdm Hj Hi.
  generalize (w / cols_ m) as q, (w mod cols_ m) as r. intros q r Hdm Hj Hi.
  rewrite (wrap_small (q * cols_ m)) by lia.
  rewrite wrap_small by lia. lia.
Qed.

Lemma short_buffer_stuck (m : Matrix) :
  Matrix_built m -> vec_size (data_ m) < rows_ m * cols_ m ->
  Matrix_transpose m = UB
  /\ (forall b r, cols_ m = rows_ b -> cols_ b <> 0 ->
        Matrix_operator_mul m b <> Ok r).
Proof.
  intros Hb Hshort.
  destruct (short_buffer_read m Hb Hshort) as (i0 & j0 & Hi0 & Hj0 & Hread).
  destruct Hb as (Hr & Hc & Hlen & Hmax). split.
  - destruct (Matrix_transpose m) as [t|e|] eqn:E; [exfalso|exfalso|reflexivity].
    + unfold Matrix_transpose in E.
      destruct (bind_Ok_inv _ _ _ E) as (r0 & _ & Hloop).
      revert Hloop. apply (for_range_not_Ok _ i0); [exact Hi0|].
      intros u u'. apply (for_range_not_Ok _ j0); [exact Hj0|].
      intros v v'. rewrite Hread. discriminate.
    + destruct (Matrix_transpose_throws m e) as [_ Hlt]; [lia | lia | exact E |].
      unfold size_mul in *. rewrite (N.mul_comm (cols_ m)) in Hlt. lia.
  - intros b r Hmb Hbc E. unfold Matrix_operator_mul in E.
    destruct (N.eqb_spec (cols_ m) (rows_ b)); [simpl in E | contradiction].
    destruct (bind_Ok_inv _ _ _ E) as (r0 & _ & Hloop).
    revert Hloop. apply (for_range_not_Ok _ i0); [exact Hi0|].
    intros u u'. apply (for_range_not_Ok _ 0); [lia|].
    intros v v' Hbody.
    destruct (bind_Ok_inv _ _ _ Hbody) as (sum & Hsum & _).
    revert Hsum. unfold Matrix_operator_mul_sum.
    apply (for_range_not_Ok _ j0); [exact Hj0|].
    intros acc acc'. rewrite Hread. discriminate.
Qed.

(** A matrix built over a buffer shorter than [rows * cols] (what the
    constructors return when the product wraps) cannot be transposed or
    multiplied: [transpose] is undefined behaviour, an out-of-buffer read,
    and [operator*] with it on the left never returns a matrix. *)
Theorem short_buffer_never_returns (m : Matrix) :
  Matrix_built m -> vec_size (data_ m) < rows_ m * cols_ m ->
  Matrix_transpose m = UB
  /\ (forall b r, cols_ m = rows_ b -> cols_ b <> 0 ->
        Matrix_operator_mul m b <> Ok r).
Proof. apply short_buffer_stuck. Qed.

(** [operator+] in closed form, on operands of one shape as the
    constructors build them (wrapped products included): the result has
    that shape and its buffer is the element-by-element sum of the two
    buffers, in row-major order. *)
Theorem operator_add_closed_form (a b : Matrix) :
  Matrix_built a -> Matrix_built b ->
  rows_ a = rows_ b -> cols_ a = cols_ b ->
  Matrix_operator_add a b
  = Ok (mkMatrix (rows_ a) (cols_ a)
          (zip_with PrimFloat.add (data_ a) (data_ b))).
Proof.
  intros (Har & Hac & Halen & Hamax) (Hbr & Hbc & Hblen & Hbmax) Hrows Hcols.
  apply Matrix_operator_add_zip; try assumption.
  rewrite Halen, Hblen, Hrows, Hcols. reflexivity.
Qed.


(** Transposing a row vector or a column vector keeps the buffer: only
    [rows] and [cols] change places. *)
Theorem transpose_vector (m : Matrix) :
  Matrix_valid m -> rows_ m = 1 \/ cols_ m = 1 ->
  Matrix_transpose m = Ok (mkMatrix (cols_ m) (rows_ m) (data_ m)).
Proof.
  intros Hv Hshape.
  destruct (Matrix_transpose_valid m Hv) as (t & Ht & Htv & Htr & Htc & Hte).
  rewrite Ht. f_equal. pose proof Hv as [(Hr & Hc & Hlen) Hmax].
  apply Matrix_entry_ext; simpl; [exact Htv | | exact Htr | exact Htc |].
  - unfold Matrix_valid, Matrix_inv. simpl. lia.
  - intros j i Hj Hi. rewrite (Hte i j) by lia. unfold entry. simpl.
    f_equal. destruct Hshape as [H1 | H1]; rewrite H1 in *; lia.
Qed.

(** ** Further properties of the boundary *)

(** [matrix_create] with positive dimensions, when the free store grants
    the object and the buffer of [rows * cols mod 2^64] doubles (an empty
    buffer asks for nothing): the handle returned is not the sentinel and
    denoted no object before; [matrix_rows] and [matrix_cols] give back the
    arguments; every object that was live still is; and [matrix_get_data]
    copies out [rows * cols mod 2^64] zeros, leaving the rest of the
    caller's buffer as it was. *)
Theorem matrix_create_fresh (mem : allocator) (h : heap) (rows cols : N) :
  rows <> 0 -> cols <> 0 -> size_mul rows cols <= max_size ->
  size_mul rows cols = 0 \/ vec_alloc mem (size_mul rows cols) = true ->
  obj_alloc mem = true ->
  exists m p,
    matrix_create_alloc mem h rows cols = Ok (h ++ [Some m], p)
    /\ p <> nullptr /\ heap_deref h p = UB
    /\ matrix_rows (h ++ [Some m]) p = Ok rows
    /\ matrix_cols (h ++ [Some m]) p = Ok cols
    /\ (forall q mq, heap_deref h q = Ok mq ->
          heap_deref (h ++ [Some m]) q = Ok mq)
    /\ (forall out, size_mul rows cols <= vec_size out ->
          matrix_get_data (h ++ [Some m]) p out
          = Ok (replicate (N.to_nat (size_mul rows cols)) 0%float
                ++ drop (N.to_nat (size_mul rows cols)) out)).
Proof.
  intros Hr Hc Hsz Hg Ho.
  set (m := mkMatrix rows cols
              (replicate (N.to_nat (size_mul rows cols)) 0%float)).
  assert (Hm : Matrix_Matrix_alloc mem rows cols = Ok m).
  { rewrite Matrix_Matrix_alloc_granted by exact Hg.
    unfold Matrix_Matrix. rewrite vec_fill_Ok by exact Hsz. simpl.
    destruct (N.eqb_spec rows 0); [contradiction|].
    destruct (N.eqb_spec cols 0); [contradiction|]. reflexivity. }
  destruct (heap_deref_new h m) as (Hd & Hfresh & Hnn & Hframe).
  exists m, (N.of_nat (Datatypes.S (length h))).
  split; [unfold matrix_create_alloc; rewrite Ho, Hm; reflexivity|].
  split; [exact Hnn|]. split; [exact Hfresh|].
  split; [unfold matrix_rows; now rewrite Hd|].
  split; [unfold matrix_cols; now rewrite Hd|].
  split; [exact Hframe|].
  intros out Hout. unfold matrix_get_data. rewrite Hd. simpl.
  assert (Hlen : vec_size (replicate (N.to_nat (size_mul rows cols)) 0%float)
                 = size_mul rows cols).
  { unfold vec_size. rewrite length_replicate. lia. }
  rewrite Hlen.
  destruct (N.ltb_spec (size_mul rows cols) (size_mul rows cols)); [lia|].
  destruct (N.ltb_spec (vec_size out) (size_mul rows cols)); [lia|]. simpl.
  rewrite take_ge; [reflexivity|]. rewrite length_replicate. lia.
Qed.

(** [matrix_set_data] followed by [matrix_get_data] on a live handle whose
    buffer holds at least [n = rows * cols mod 2^64] elements, with caller
    arrays of at least [n] elements: the first [n] elements read back are
    the first [n] written, the rest of the output buffer is untouched, the
    dimensions are unchanged, and no other handle is affected. *)
Theorem set_data_get_data (h : heap) (p : handle) (m : Matrix)
    (data out : list float) :
  heap_deref h p = Ok m ->
  size_mul (rows_ m) (cols_ m) <= vec_size (data_ m) ->
  size_mul (rows_ m) (cols_ m) <= vec_size data ->
  size_mul (rows_ m) (cols_ m) <= vec_size out ->
  exists h',
    matrix_set_data h p data = Ok h'
    /\ matrix_rows h' p = Ok (rows_ m) /\ matrix_cols h' p = Ok (cols_ m)
    /\ matrix_get_data h' p out
       = Ok (take (N.to_nat (size_mul (rows_ m) (cols_ m))) data
             ++ drop (N.to_nat (size_mul (rows_ m) (cols_ m))) out)
    /\ (forall q, q <> p -> heap_deref h' q = heap_deref h q).
Proof.
  clear max_size_addressable. intros Hp Hbuf Hdata Hout.
  destruct (heap_deref_live h p m Hp) as [Hp0 _].
  set (n := size_mul (rows_ m) (cols_ m)) in *.
  set (buf := take (N.to_nat n) data ++ drop (N.to_nat n) (data_ m)).
  set (m' := mkMatrix (rows_ m) (cols_ m) buf).
  exists (<[N.to_nat (p - 1) := Some m']> h).
  assert (Hd : heap_deref (<[N.to_nat (p - 1) := Some m']> h) p = Ok m')
    by (eapply heap_deref_insert_eq; exact Hp).
  assert (Htake : length (take (N.to_nat n) data) = N.to_nat n).
  { rewrite length_take. unfold vec_size in Hdata. lia. }
  split.
  { unfold matrix_set_data. rewrite Hp. simpl. fold n.
    destruct (N.ltb_spec (vec_size data) n); [lia|].
    destruct (N.ltb_spec (vec_size (data_ m)) n); [lia|]. reflexivity. }
  split; [unfold matrix_rows; now rewrite Hd|].
  split; [unfold matrix_cols; now rewrite Hd|].
  split.
  { unfold matrix_get_data. rewrite Hd. simpl. fold n.
    assert (Hlen : n <= vec_size buf).
    { unfold vec_size, buf. rewrite length_app, Htake. lia. }
    destruct (N.ltb_spec (vec_size buf) n); [lia|].
    destruct (N.ltb_spec (vec_size out) n); [lia|]. simpl.
    unfold buf. rewrite take_app_length' by (symmetry; exact Htake). reflexivity. }
  intros q Hq. apply heap_deref_insert_ne; assumption.
Qed.

(** [matrix_destroy] of a live handle: afterwards the handle denotes
    nothing, so destroying it again, querying it, copying through it, or
    passing it as an operand in either position is undefined; every other
    handle denotes what it did. *)
Theorem matrix_destroy_live (h : heap) (p : handle) (m : Matrix) :
  heap_deref h p = Ok m ->
  exists h',
    matrix_destroy h p = Ok h'
    /\ heap_deref h' p = UB
    /\ matrix_destroy h' p = UB
    /\ matrix_rows h' p = UB /\ matrix_cols h' p = UB
    /\ (forall data, matrix_set_data h' p data = UB
                     /\ matrix_get_data h' p data = UB)
    /\ (forall q, matrix_transpose h' p = UB
                  /\ matrix_add h' p q = UB /\ matrix_add h' q p = UB
                  /\ matrix_multiply h' p q = UB
                  /\ matrix_multiply h' q p = UB)
    /\ (forall q, q <> p -> heap_deref h' q = heap_deref h q).
Proof.
  intros Hp. destruct (heap_deref_live h p m Hp) as [Hp0 _].
  exists (<[N.to_nat (p - 1) := None]> h).
  assert (Hd : heap_deref (<[N.to_nat (p - 1) := None]> h) p = UB)
    by (eapply heap_deref_insert_None; exact Hp).
  split.
  { unfold matrix_destroy. destruct (N.eqb_spec p 0); [contradiction|].
    now rewrite Hp. }
  split; [exact Hd|].
  split.
  { unfold matrix_destroy. destruct (N.eqb_spec p 0); [contradiction|].
    now rewrite Hd. }
  split; [unfold matrix_rows; now rewrite Hd|].
  split; [unfold matrix_cols; now rewrite Hd|].
  split.
  { intros data. unfold matrix_set_data, matrix_get_data. now rewrite Hd. }
  split.
  { intros q. unfold matrix_transpose, matrix_add, matrix_multiply.
    rewrite Hd. simpl.
    pose proof (heap_deref_no_throw (<[N.to_nat (p - 1) := None]> h) q) as Hq.
    destruct (heap_deref (<[N.to_nat (p - 1) := None]> h) q) as [mq|e|];
      [| now destruct (Hq e) |]; repeat split; reflexivity. }
  intros q Hq. apply heap_deref_insert_ne; assumption.
Qed.


(** [matrix_multiply] on live handles to valid matrices with agreeing inner
    dimensions, when the free store grants the buffer of the result and
    the object: a fresh handle, not the sentinel, of shape
    [(rows a, cols b)]; the operands stay live and unchanged; and
    [matrix_get_data] on the result fills a buffer of the caller's length
    that holds, at position [i * cols b + j], the element [(i, j)] of what
    [operator*] returned. *)
Theorem matrix_multiply_live (mem : allocator) (h : heap) (a b : handle)
    (ma mb : Matrix) :
  heap_deref h a = Ok ma -> heap_deref h b = Ok mb ->
  Matrix_valid ma -> Matrix_valid mb ->
  cols_ ma = rows_ mb -> rows_ ma * cols_ mb <= max_size ->
  vec_alloc mem (rows_ ma * cols_ mb) = true -> obj_alloc mem = true ->
  exists r p,
    Matrix_operator_mul_alloc mem ma mb = Ok r
    /\ matrix_multiply_alloc mem h a b = Ok (h ++ [Some r], p)
    /\ p <> nullptr /\ heap_deref h p = UB
    /\ matrix_rows (h ++ [Some r]) p = Ok (rows_ ma)
    /\ matrix_cols (h ++ [Some r]) p = Ok (cols_ mb)
    /\ heap_deref (h ++ [Some r]) a = Ok ma
    /\ heap_deref (h ++ [Some r]) b = Ok mb
    /\ (forall out, rows_ ma * cols_ mb <= vec_size out ->
          exists buf,
            matrix_get_data (h ++ [Some r]) p out = Ok buf
            /\ length buf = length out
            /\ (forall i j, i < rows_ ma -> j < cols_ mb ->
                  exists x,
                    Matrix_at_const r i j = Ok x
                    /\ buf !! N.to_nat (i * cols_ mb + j) = Some x)).
Proof.
  intros Ha Hb Hva Hvb Hab Hsz Hg Ho. pose proof max_size_lt_SIZE as Hms.
  destruct (Matrix_operator_mul_valid ma mb Hva Hvb Hab Hsz)
    as (r & Hr & Hrv & Hrr & Hrc & Hre).
  assert (Hr' : Matrix_operator_mul_alloc mem ma mb = Ok r).
  { rewrite Matrix_operator_mul_alloc_granted; [exact Hr|].
    right. rewrite size_mul_small by exact Hsz. exact Hg. }
  destruct (heap_deref_new h r) as (Hd & Hfresh & Hnn & Hframe).
  exists r, (N.of_nat (Datatypes.S (length h))).
  split; [exact Hr'|].
  split.
  { unfold matrix_multiply_alloc, heap_new_alloc. rewrite Ha, Hb. simpl.
    rewrite Hr'. simpl. rewrite Ho. reflexivity. }
  split; [exact Hnn|]. split; [exact Hfresh|].
  split; [unfold matrix_rows; rewrite Hd; simpl; now rewrite Hrr|].
  split; [unfold matrix_cols; rewrite Hd; simpl; now rewrite Hrc|].
  split; [apply Hframe, Ha|]. split; [apply Hframe, Hb|].
  intros out Hout. unfold matrix_get_data. rewrite Hd. simpl.
  pose proof Hrv as [(_ & _ & Hrlen) _]. rewrite Hrr, Hrc in *.
  unfold size_mul. rewrite wrap_small by lia. rewrite Hrlen.
  destruct (N.ltb_spec (rows_ ma * cols_ mb) (rows_ ma * cols_ mb)); [lia|].
  destruct (N.ltb_spec (vec_size out) (rows_ ma * cols_ mb)); [lia|]. simpl.
  eexists. split; [reflexivity|]. unfold vec_size in *. split.
  - rewrite length_app, length_take, length_drop. lia.
  - intros i j Hi Hj.
    destruct (Matrix_at_const_entry r i j Hrv) as (x & Hx & Hget); [lia | lia |].
    exists x. split; [exact Hget|].
    pose proof (rowmajor_lt _ _ _ _ Hi Hj) as Hlt.
    rewrite lookup_app_l by (rewrite length_take; lia).
    rewrite lookup_take_lt by lia.
    unfold entry in Hx. rewrite Hrc in Hx. exact Hx.
Qed.



End Engine.

(** Validity of a small concrete matrix, by evaluation. *)
Ltac valid_by_eval :=
  unfold Matrix_valid, Matrix_inv, vec_size; simpl;
  repeat split; solve [reflexivity | discriminate | lia].

(** ** The specification's scenarios, run on the embedding *)

Example scenario_add :
  Matrix_operator_add max_size_lp64 mA mB
  = Ok (mkMatrix 2 2 [6; 8; 10; 12]%float).
Proof. reflexivity. Qed.

Example scenario_multiply :
  Matrix_operator_mul max_size_lp64 mA mB
  = Ok (mkMatrix 2 2 [19; 22; 43; 50]%float).
Proof. reflexivity. Qed.

(** The entry [(0, 0)] of that product, as the specification's sum. *)
Example scenario_spec_dot : spec_dot mA mB 0 0 = Some 19%float.
Proof. reflexivity. Qed.

Example scenario_transpose :
  Matrix_transpose max_size_lp64 mA = Ok (mkMatrix 2 2 [1; 3; 2; 4]%float).
Proof. reflexivity. Qed.

Example scenario_add_mismatch :
  Matrix_operator_add max_size_lp64 m2x3 m3x2 = Throw DimensionMismatch_add.
Proof. reflexivity. Qed.

Example scenario_multiply_mismatch :
  Matrix_operator_mul max_size_lp64 m2x3 m2x3 = Throw DimensionMismatch_mul.
Proof. reflexivity. Qed.

Example scenario_at_2x2 :
  Matrix_at_const mA 2 0 = Throw IndexOutOfRange
  /\ Matrix_at_const mA 0 2 = Throw IndexOutOfRange
  /\ Matrix_at mA 2 0 = Throw IndexOutOfRange
  /\ Matrix_at mA 0 2 = Throw IndexOutOfRange.
Proof. repeat split; reflexivity. Qed.

Example scenario_construct_size_mismatch :
  Matrix_Matrix_data 2 3 [1; 2; 3; 4; 5]%float = Throw SizeMismatch.
Proof. reflexivity. Qed.

Example scenario_create_0_5 :
  matrix_create max_size_lp64 [] 0 5 = Ok ([], nullptr).
Proof. reflexivity. Qed.

(** [multiply(h_2x3, h_4x5)]: handles 1 and 2 of a store holding a 2 x 3 and
    a 4 x 5 matrix. *)
Example scenario_multiply_2x3_4x5 :
  exists h1 h2 a b,
    matrix_create max_size_lp64 [] 2 3 = Ok (h1, a)
    /\ matrix_create max_size_lp64 h1 4 5 = Ok (h2, b)
    /\ a <> nullptr /\ b <> nullptr
    /\ matrix_multiply max_size_lp64 h2 a b = Ok (h2, nullptr).
Proof.
  eexists _, _, _, _. split; [reflexivity|]. split; [reflexivity|].
  repeat split; discriminate.
Qed.

Example scenario_get_data_after_create :
  exists h a,
    matrix_create max_size_lp64 [] 2 2 = Ok (h, a)
    /\ matrix_get_data h a [1; 1; 1; 1]%float = Ok [0; 0; 0; 0]%float.
Proof. eexists _, _. split; reflexivity. Qed.

(** ** Instances of the theorems *)

Lemma C10_size_check_wraps_witness :
  Matrix_Matrix_data (2 ^ 32) (2 ^ 32) []
  = Ok (mkMatrix (2 ^ 32) (2 ^ 32) [])
  /\ Matrix_Matrix_data 2 3 [1; 2]%float = Throw SizeMismatch.
Proof.
  split.
  - apply (proj1 C10_size_check_wraps (2 ^ 32) (2 ^ 32) []);
      [discriminate | discriminate | reflexivity].
  - apply (proj1 C10_size_check_wraps 2 3 [1; 2]%float);
      discriminate.
Defined.

Lemma C6_at_bounds_witness :
  (Matrix_at mA 1 1 = Throw IndexOutOfRange <-> rows_ mA <= 1 \/ cols_ mA <= 1)
  /\ (Matrix_at_const mA 1 1 = Throw IndexOutOfRange
      <-> rows_ mA <= 1 \/ cols_ mA <= 1)
  /\ exists x,
       data_ mA !! N.to_nat (1 * cols_ mA + 1) = Some x
       /\ Matrix_at mA 1 1 = Ok (1 * cols_ mA + 1)
       /\ Matrix_at_const mA 1 1 = Ok x.
Proof.
  destruct (C6_at_bounds max_size_lp64 ltac:(reflexivity) mA 1 1
              ltac:(valid_by_eval)) as (H1 & H2 & H3).
  split; [exact H1|]. split; [exact H2|]. apply H3; reflexivity.
Defined.

Lemma C7_transpose_witness :
  exists t,
    Matrix_transpose max_size_lp64 mA = Ok t
    /\ rows_ t = cols_ mA /\ cols_ t = rows_ mA /\ Matrix_valid max_size_lp64 t
    /\ (forall i j, i < rows_ mA -> j < cols_ mA ->
          exists x, Matrix_at_const mA i j = Ok x /\ Matrix_at_const t j i = Ok x)
    /\ (exists u,
          Matrix_transpose max_size_lp64 t = Ok u
          /\ (forall i j, i < rows_ mA -> j < cols_ mA ->
                Matrix_at_const u i j = Matrix_at_const mA i j)
          /\ u = mA).
Proof.
  apply (C7_transpose max_size_lp64 ltac:(reflexivity) mA). valid_by_eval.
Defined.

Lemma C2_operator_add_witness :
  (Matrix_operator_add max_size_lp64 m2x3 m3x2 = Throw DimensionMismatch_add
   /\ is_DimensionMismatch DimensionMismatch_add)
  /\ exists r,
       Matrix_operator_add max_size_lp64 mA mB = Ok r
       /\ rows_ r = rows_ mA /\ cols_ r = cols_ mA /\ Matrix_valid max_size_lp64 r
       /\ (forall i j, i < rows_ mA -> j < cols_ mA ->
             exists x y,
               Matrix_at_const mA i j = Ok x /\ Matrix_at_const mB i j = Ok y
               /\ Matrix_at_const r i j = Ok (x + y)%float).
Proof.
  split.
  - apply (C2_operator_add max_size_lp64 ltac:(reflexivity) m2x3 m3x2
             ltac:(valid_by_eval) ltac:(valid_by_eval)).
    left. discriminate.
  - apply (C2_operator_add max_size_lp64 ltac:(reflexivity) mA mB
             ltac:(valid_by_eval) ltac:(valid_by_eval)); reflexivity.
Defined.

Lemma C9_add_zero_witness :
  exists z r,
    Matrix_Matrix max_size_lp64 (rows_ mA) (cols_ mA) = Ok z
    /\ Matrix_operator_add max_size_lp64 mA z = Ok r
    /\ rows_ r = rows_ mA /\ cols_ r = cols_ mA
    /\ (forall i j, i < rows_ mA -> j < cols_ mA ->
          exists x y,
            Matrix_at_const mA i j = Ok x /\ Matrix_at_const r i j = Ok y
            /\ y = (x + 0)%float
            /\ (x <> (-0)%float -> y = x)
            /\ (is_nan x = false -> (y =? x)%float = true)).
Proof.
  apply (C9_add_zero max_size_lp64 ltac:(reflexivity) mA). valid_by_eval.
Defined.


(** ** Where the code departs from the specification's wording *)


(** C9 fails under either reading of "equals". Identity: a [-0.0] element
    comes back as [+0.0]. IEEE comparison: a NaN element comes back as a
    NaN, which compares unequal to itself. *)
Lemma C9_counterexample :
  ~ (exists z r,
       Matrix_Matrix max_size_lp64 1 1 = Ok z
       /\ Matrix_operator_add max_size_lp64 mNegZero z = Ok r
       /\ forall i j, i < 1 -> j < 1 ->
            Matrix_at_const r i j = Matrix_at_const mNegZero i j)
  /\ ~ (exists z r,
          Matrix_Matrix max_size_lp64 1 1 = Ok z
          /\ Matrix_operator_add max_size_lp64 mNaN z = Ok r
          /\ forall i j, i < 1 -> j < 1 ->
               exists x y,
                 Matrix_at_const r i j = Ok x /\ Matrix_at_const mNaN i j = Ok y
                 /\ (x =? y)%float = true).
Proof.
  split.
  - intros (z & r & Hz & Hr & Hall).
    vm_compute in Hz. injection Hz as <-.
    vm_compute in Hr. injection Hr as <-.
    specialize (Hall 0 0 eq_refl eq_refl). vm_compute in Hall.
    apply Ok_inj in Hall. now apply float_zero_neq_negzero.
  - intros (z & r & Hz & Hr & Hall).
    vm_compute in Hz. injection Hz as <-.
    vm_compute in Hr. injection Hr as <-.
    destruct (Hall 0 0 eq_refl eq_refl) as (x & y & Hx & Hy & Hxy).
    vm_compute in Hx, Hy. apply Ok_inj in Hx, Hy. subst x y.
    vm_compute in Hxy. discriminate.
Qed.

(** ** The unguarded product [rows * cols]

    Both constructors take [rows * cols] in [size_t] without a guard. At
    [rows = cols = 2^32] the product is 2^64, which wraps to 0. *)

(** At [rows = cols = 2^32] the product wraps to 0: the two-argument
    constructor returns a matrix of that shape over an empty buffer. *)
Lemma Matrix_Matrix_wraps :
  Matrix_Matrix max_size_lp64 (2 ^ 32) (2 ^ 32)
  = Ok (mkMatrix (2 ^ 32) (2 ^ 32) []).
Proof. reflexivity. Qed.

(** The matrix of [Matrix_Matrix_wraps] has positive dimensions; its
    transpose reads [at(0, 0)] out of the empty buffer. *)
Lemma Matrix_transpose_wrapped :
  Matrix_transpose max_size_lp64 (mkMatrix (2 ^ 32) (2 ^ 32) []) = UB.
Proof.
  unfold Matrix_transpose. cbn [rows_ cols_ data_].
  rewrite Matrix_Matrix_wraps. cbn [bind].
  apply for_range_UB; [reflexivity|].
  apply for_range_UB; [reflexivity|]. reflexivity.
Qed.

Lemma Matrix_Matrix_overflow (max_size : N) :
  Matrix_Matrix max_size (2 ^ 32) (2 ^ 32)
  = Ok (mkMatrix (2 ^ 32) (2 ^ 32) []).
Proof.
  unfold Matrix_Matrix, vec_fill.
  change (size_mul (2 ^ 32) (2 ^ 32)) with 0.
  destruct (N.ltb_spec max_size 0); [lia | reflexivity].
Qed.

Lemma Matrix_Matrix_alloc_overflow (max_size : N) (mem : allocator) :
  Matrix_Matrix_alloc max_size mem (2 ^ 32) (2 ^ 32)
  = Ok (mkMatrix (2 ^ 32) (2 ^ 32) []).
Proof.
  unfold Matrix_Matrix_alloc, vec_fill_alloc.
  change (size_mul (2 ^ 32) (2 ^ 32)) with 0.
  destruct (N.ltb_spec max_size 0); [lia | reflexivity].
Qed.

(** C4 at [rows = cols = 2^32]: whatever [max_size] and the free store
    are, the two-argument constructor returns normally, with shape
    (2^32, 2^32) and an empty buffer; the element at (0, 0) passes the
    bounds check of [at] and is read out of the buffer. *)
Theorem C4_overflow_construct :
  (forall max_size mem,
     Matrix_Matrix max_size (2 ^ 32) (2 ^ 32)
     = Ok (mkMatrix (2 ^ 32) (2 ^ 32) [])
     /\ Matrix_Matrix_alloc max_size mem (2 ^ 32) (2 ^ 32)
        = Ok (mkMatrix (2 ^ 32) (2 ^ 32) []))
  /\ Matrix_at_const (mkMatrix (2 ^ 32) (2 ^ 32) []) 0 0 = UB
  /\ Matrix_at (mkMatrix (2 ^ 32) (2 ^ 32) []) 0 0 = UB.
Proof.
  split; [|split; reflexivity].
  intros max_size mem.
  split; [apply Matrix_Matrix_overflow | apply Matrix_Matrix_alloc_overflow].
Qed.

(** C5 at [rows = cols = 2^32] with the empty sequence: its length, 0, is
    not [rows * cols], yet the data-initialised constructor throws nothing
    and returns a matrix of shape (2^32, 2^32) that has no element to read
    at (0, 0). *)
Theorem C5_overflow_check :
  vec_size [] <> 2 ^ 32 * 2 ^ 32
  /\ Matrix_Matrix_data (2 ^ 32) (2 ^ 32) []
     = Ok (mkMatrix (2 ^ 32) (2 ^ 32) [])
  /\ ([] : list float) !! N.to_nat (0 * 2 ^ 32 + 0) = None
  /\ Matrix_at_const (mkMatrix (2 ^ 32) (2 ^ 32) []) 0 0 = UB.
Proof. repeat split; try reflexivity. discriminate. Qed.

(** C8 at [rows = cols = 2^32]: each constructor returns a matrix with
    [rows = cols = 2^32] and [data.length = 0], which does not satisfy
    [data.length == rows * cols]; [transpose] of it is undefined
    behaviour. *)
Theorem C8_overflow_invariant :
  (forall max_size,
     Matrix_Matrix max_size (2 ^ 32) (2 ^ 32)
     = Ok (mkMatrix (2 ^ 32) (2 ^ 32) []))
  /\ Matrix_Matrix_data (2 ^ 32) (2 ^ 32) []
     = Ok (mkMatrix (2 ^ 32) (2 ^ 32) [])
  /\ ~ Matrix_inv (mkMatrix (2 ^ 32) (2 ^ 32) [])
  /\ Matrix_transpose max_size_lp64 (mkMatrix (2 ^ 32) (2 ^ 32) []) = UB.
Proof.
  split; [exact Matrix_Matrix_overflow|]. split; [reflexivity|]. split.
  - intros (_ & _ & Hlen). vm_compute in Hlen. discriminate.
  - apply Matrix_transpose_wrapped.
Qed.

Lemma mTall_valid : Matrix_valid max_size_lp64 mTall.
Proof.
  unfold Matrix_valid, Matrix_inv, vec_size, mTall. cbn [rows_ cols_ data_].
  rewrite length_replicate, N2Nat.id.
  repeat split; solve [reflexivity | discriminate].
Qed.

Lemma mWide_valid : Matrix_valid max_size_lp64 mWide.
Proof.
  unfold Matrix_valid, Matrix_inv, vec_size, mWide. cbn [rows_ cols_ data_].
  rewrite length_replicate, N2Nat.id.
  repeat split; solve [reflexivity | discriminate].
Qed.

(** The product of a 2^32 x 1 by a 1 x 2^32 matrix: the result is built
    over an empty buffer, and the first store [result.at(0, 0) = sum] is out
    of it. *)
Lemma mul_tall_wide (d1 d2 : list float) (x y : float) :
  d1 !! 0%nat = Some x -> d2 !! 0%nat = Some y ->
  Matrix_operator_mul max_size_lp64
    (mkMatrix (2 ^ 32) 1 d1) (mkMatrix 1 (2 ^ 32) d2) = UB.
Proof.
  intros H1 H2. unfold Matrix_operator_mul. cbn [rows_ cols_ data_].
  change (negb (1 =? 1)) with false. cbv iota.
  rewrite Matrix_Matrix_wraps. cbn [bind].
  apply for_range_UB; [reflexivity|].
  apply for_range_UB; [reflexivity|].
  assert (Hsum : Matrix_operator_mul_sum
                   (mkMatrix (2 ^ 32) 1 d1) (mkMatrix 1 (2 ^ 32) d2) 0 0
                 = Ok (0 + x * y)%float).
  { unfold Matrix_operator_mul_sum, for_range, Matrix_at_const, vec_get.
    cbn [rows_ cols_ data_].
    change (N.to_nat 1) with 1%nat. cbn [for_from].
    change ((2 ^ 32 <=? 0) || (1 <=? 0)) with false.
    change ((1 <=? 0) || (2 ^ 32 <=? 0)) with false. cbv iota.
    change (N.to_nat (size_add (size_mul 0 1) 0)) with 0%nat.
    change (N.to_nat (size_add (size_mul 0 (2 ^ 32)) 0)) with 0%nat.
    rewrite H1, H2. reflexivity. }
  rewrite Hsum. reflexivity.
Qed.

(** C1 on a 2^32 x 1 column times a 1 x 2^32 row, both valid and with
    agreeing inner dimensions: [rows * cols] of the result wraps to 0, the
    result is built over an empty buffer whatever the free store answers,
    and the first store [result.at(0, 0) = sum] is out of it. [operator*]
    neither throws nor returns a matrix. *)
Theorem C1_overflow_store :
  Matrix_valid max_size_lp64 mTall /\ Matrix_valid max_size_lp64 mWide
  /\ cols_ mTall = rows_ mWide
  /\ Matrix_operator_mul max_size_lp64 mTall mWide = UB
  /\ (forall mem, Matrix_operator_mul_alloc max_size_lp64 mem mTall mWide = UB).
Proof.
  assert (H : Matrix_operator_mul max_size_lp64 mTall mWide = UB).
  { unfold mTall, mWide.
    apply (mul_tall_wide _ _ 0%float 0%float); apply lookup_replicate_2; lia. }
  split; [exact mTall_valid|]. split; [exact mWide_valid|].
  split; [reflexivity|]. split; [exact H|].
  intros mem. rewrite <- H.
  apply Matrix_operator_mul_alloc_granted. left. reflexivity.
Qed.

(** ** Instances of the further properties *)

Ltac built_by_eval :=
  unfold Matrix_built, vec_size; simpl;
  repeat split; solve [reflexivity | discriminate | lia].

Lemma at_assign_read_back_witness :
  exists m',
    Matrix_at_assign mA 0 1 9%float = Ok m'
    /\ Matrix_at_const m' 0 1 = Ok 9%float
    /\ Matrix_at_const m' 1 0 = Matrix_at_const mA 1 0.
Proof.
  destruct (at_assign_read_back max_size_lp64 ltac:(reflexivity) mA 0 1 9%float
              ltac:(valid_by_eval) ltac:(reflexivity) ltac:(reflexivity))
    as (m' & H1 & _ & _ & _ & H2 & H3).
  exists m'. split; [exact H1|]. split; [exact H2|].
  apply H3; [reflexivity | reflexivity | discriminate].
Defined.

Lemma operations_throw_only_witness :
  (bad_alloc = DimensionMismatch_mul /\ cols_ m2x3 <> rows_ m3x2)
  \/ (bad_alloc = length_error
      /\ max_size_lp64 < size_mul (rows_ m2x3) (cols_ m3x2))
  \/ (bad_alloc = bad_alloc
      /\ size_mul (rows_ m2x3) (cols_ m3x2) <= max_size_lp64
      /\ size_mul (rows_ m2x3) (cols_ m3x2) <> 0
      /\ vec_alloc refuses_buffers (size_mul (rows_ m2x3) (cols_ m3x2))
         = false)
  \/ (bad_alloc = InvalidDimension
      /\ (rows_ m2x3 = 0 \/ cols_ m3x2 = 0)).
Proof.
  destruct (operations_throw_only max_size_lp64 ltac:(reflexivity)
              refuses_buffers m2x3 m3x2 bad_alloc) as (_ & Hmul & _).
  apply Hmul. reflexivity.
Defined.

Lemma operator_add_closed_form_witness :
  Matrix_operator_add max_size_lp64 mA mB
  = Ok (mkMatrix (rows_ mA) (cols_ mA)
          (zip_with PrimFloat.add (data_ mA) (data_ mB))).
Proof.
  apply (operator_add_closed_form max_size_lp64 ltac:(reflexivity) mA mB);
    [built_by_eval | built_by_eval | reflexivity | reflexivity].
Defined.

Lemma operator_add_comm_witness :
  Matrix_operator_add max_size_lp64 mA mB
  = Matrix_operator_add max_size_lp64 mB mA.
Proof.
  apply (operator_add_comm max_size_lp64 ltac:(reflexivity) mA mB);
    built_by_eval.
Defined.

Lemma transpose_add_witness :
  exists s ta tb t,
    Matrix_operator_add max_size_lp64 mA mB = Ok s
    /\ Matrix_transpose max_size_lp64 mA = Ok ta
    /\ Matrix_transpose max_size_lp64 mB = Ok tb
    /\ Matrix_transpose max_size_lp64 s = Ok t
    /\ Matrix_operator_add max_size_lp64 ta tb = Ok t.
Proof.
  apply (transpose_add max_size_lp64 ltac:(reflexivity) mA mB);
    [valid_by_eval | valid_by_eval | reflexivity | reflexivity].
Defined.

Lemma transpose_mul_witness :
  exists p ta tb t,
    Matrix_operator_mul_alloc max_size_lp64 grants_8GiB m2x3 m3x2 = Ok p
    /\ Matrix_transpose_alloc max_size_lp64 grants_8GiB m2x3 = Ok ta
    /\ Matrix_transpose_alloc max_size_lp64 grants_8GiB m3x2 = Ok tb
    /\ Matrix_transpose_alloc max_size_lp64 grants_8GiB p = Ok t
    /\ Matrix_operator_mul_alloc max_size_lp64 grants_8GiB tb ta = Ok t.
Proof.
  apply (transpose_mul max_size_lp64 ltac:(reflexivity) grants_8GiB m2x3 m3x2);
    [valid_by_eval | valid_by_eval | reflexivity | discriminate
    | reflexivity | reflexivity | reflexivity].
Defined.

Lemma short_buffer_never_returns_witness :
  Matrix_transpose max_size_lp64 (mkMatrix (2 ^ 32) (2 ^ 32) []) = UB
  /\ (forall b r, 2 ^ 32 = rows_ b -> cols_ b <> 0 ->
        Matrix_operator_mul max_size_lp64 (mkMatrix (2 ^ 32) (2 ^ 32) []) b
        <> Ok r).
Proof.
  apply (short_buffer_never_returns max_size_lp64 ltac:(reflexivity)
           (mkMatrix (2 ^ 32) (2 ^ 32) []));
    [built_by_eval | reflexivity].
Defined.

Lemma transpose_vector_witness :
  Matrix_transpose max_size_lp64 (mkMatrix 1 3 [1; 2; 3]%float)
  = Ok (mkMatrix 3 1 [1; 2; 3]%float).
Proof.
  apply (transpose_vector max_size_lp64 ltac:(reflexivity)
           (mkMatrix 1 3 [1; 2; 3]%float));
    [valid_by_eval | left; reflexivity].
Defined.

Lemma matrix_create_fresh_witness :
  exists m p,
    matrix_create_alloc max_size_lp64 grants_8GiB [Some mA] 2 3
    = Ok ([Some mA] ++ [Some m], p)
    /\ p <> nullptr
    /\ matrix_rows ([Some mA] ++ [Some m]) p = Ok 2
    /\ matrix_cols ([Some mA] ++ [Some m]) p = Ok 3.
Proof.
  destruct (matrix_create_fresh max_size_lp64 ltac:(reflexivity) grants_8GiB
              [Some mA] 2 3
              ltac:(discriminate) ltac:(discriminate) ltac:(discriminate)
              ltac:(right; reflexivity) ltac:(reflexivity))
    as (m & p & H1 & H2 & _ & H3 & H4 & _).
  exists m, p. repeat split; assumption.
Defined.

Lemma set_data_get_data_witness :
  exists h',
    matrix_set_data [Some mA] 1 [5; 6; 7; 8; 9]%float = Ok h'
    /\ matrix_get_data h' 1 [0; 0; 0; 0; 1]%float
       = Ok [5; 6; 7; 8; 1]%float.
Proof.
  destruct (set_data_get_data [Some mA] 1 mA [5; 6; 7; 8; 9]%float
              [0; 0; 0; 0; 1]%float
              ltac:(reflexivity) ltac:(discriminate) ltac:(discriminate)
              ltac:(discriminate))
    as (h' & H1 & _ & _ & H2 & _).
  exists h'. split; [exact H1 | exact H2].
Defined.

Lemma matrix_destroy_live_witness :
  exists h',
    matrix_destroy [Some mA; Some mB] 1 = Ok h'
    /\ matrix_destroy h' 1 = UB
    /\ heap_deref h' 2 = Ok mB.
Proof.
  destruct (matrix_destroy_live max_size_lp64 [Some mA; Some mB] 1 mA
              ltac:(reflexivity))
    as (h' & H1 & _ & H2 & _ & _ & _ & _ & H3).
  exists h'. split; [exact H1|]. split; [exact H2|].
  rewrite H3; [reflexivity | discriminate].
Defined.


Lemma matrix_multiply_live_witness :
  exists r p,
    matrix_multiply_alloc max_size_lp64 grants_8GiB [Some m2x3; Some m3x2] 1 2
    = Ok ([Some m2x3; Some m3x2] ++ [Some r], p)
    /\ p <> nullptr
    /\ matrix_rows ([Some m2x3; Some m3x2] ++ [Some r]) p = Ok 2
    /\ matrix_cols ([Some m2x3; Some m3x2] ++ [Some r]) p = Ok 2.
Proof.
  destruct (matrix_multiply_live max_size_lp64 ltac:(reflexivity) grants_8GiB
              [Some m2x3; Some m3x2] 1 2 m2x3 m3x2
              ltac:(reflexivity) ltac:(reflexivity)
              ltac:(valid_by_eval) ltac:(valid_by_eval)
              ltac:(reflexivity) ltac:(discriminate)
              ltac:(reflexivity) ltac:(reflexivity))
    as (r & p & _ & H1 & H2 & _ & H3 & H4 & _).
  exists r, p. repeat split; assumption.
Defined.


